(** * Pushgateway Upsetter: liveness tracking and reconciliation

    A shallow embedding of the Go packages [tracking] (group state and its
    adaptive timeout), [pushgateway] (metrics groups, keys, label checks,
    metric timestamps) and of the polling loop of [main], followed by the
    properties of these functions.

    Go maps are finite maps ([gmap]); where the Go code ranges over a map,
    whose iteration order is unspecified, the order is an explicit list.
    [time.Time] is the wall-clock instant, [time.Duration] is a signed
    64-bit count of nanoseconds with its wrap-around written out. *)

From Stdlib Require Import ZArith Lia Ascii.
From Stdlib Require OrdersEx.
From stdpp Require Import gmap strings list sorting fin_maps.

(** ** Package [time] (Go standard library), as far as the program uses it *)

Module time.

(** [time.Duration] is an [int64] number of nanoseconds. *)
Definition Duration : Type := Z.

Definition minDuration : Duration := (- 2 ^ 63)%Z.
Definition maxDuration : Duration := (2 ^ 63 - 1)%Z.

(** Two's complement wrap-around of [int64] arithmetic. *)
Definition wrap64 (z : Z) : Z := ((z + 2 ^ 63) mod 2 ^ 64 - 2 ^ 63)%Z.

(** [a + b], [-a] and [a / b] on durations. Go's integer division
    truncates toward zero. *)
Definition dur_add (a b : Duration) : Duration := wrap64 (a + b).
Definition dur_neg (a : Duration) : Duration := wrap64 (- a).
Definition dur_div (a b : Duration) : Duration := wrap64 (Z.quot a b).

(** A [time.Time] is modelled by the instant it denotes: the number of
    nanoseconds since January 1, year 1, 00:00:00 UTC, which is the zero
    value [time.Time{}]. Instants before it (year 0000 in RFC 3339) are
    negative. The location and the monotonic clock reading carry no
    information for the operations below when at least one operand comes
    from parsing, adding or the zero value, which is the case at every
    call of the program. *)
Definition Time : Type := Z.

Definition zero : Time := 0%Z.

Definition IsZero (t : Time) : bool := (t =? 0)%Z.
Definition After (t u : Time) : bool := (u <? t)%Z.
Definition Before (t u : Time) : bool := (t <? u)%Z.

(** [t.Compare(u)] is -1, 0 or +1. *)
Definition Compare (t u : Time) : Z :=
  if (t <? u)%Z then (-1)%Z else if (u <? t)%Z then 1%Z else 0%Z.

(** [t.Sub(u)] is the duration [t - u], saturated to the range of
    [Duration]. *)
Definition Sub (t u : Time) : Duration :=
  if (t - u <? minDuration)%Z then minDuration
  else if (maxDuration <? t - u)%Z then maxDuration
  else (t - u)%Z.

(** [t.Add(d)]. The bound of Go's representation, an [int64] count of
    seconds (292 billion years around the zero time), is not modelled. *)
Definition Add (t : Time) (d : Duration) : Time := (t + d)%Z.

End time.

(** ** Package [tracking] *)

Module tracking.
Import time.

(** GroupState contains the up state and timing data of a metrics group. *)
Record GroupState : Type := mkGroupState {
  up : bool;
  timestamp : Time;
  timeout : Duration;
}.

Definition NewGroupState (timestamp : Time) : GroupState :=
  {| up := false; timestamp := timestamp; timeout := 0%Z |}.

(** IsUp returns the up state at the current time; [now] is the value
    [time.Now()] returns at the call. *)
Definition IsUp (now : Time) (gs : GroupState) : bool :=
  if IsZero (timestamp gs) || (timeout gs =? 0)%Z then false
  else
    let expiration := Add (timestamp gs) (timeout gs) in
    Before now expiration.

(** Update returns true if the up state changed during the update. The
    receiver is mutated in place: the function returns the new state next
    to the result. [now] is the clock reading of the [IsUp] call inside. *)
Definition Update (now : Time) (ts : Time) (gs : GroupState)
  : GroupState * bool :=
  let wasUp := up gs in
  let gs1 :=
    if After ts (timestamp gs) && negb (IsZero (timestamp gs)) then
      let delta := Sub ts (timestamp gs) in
      {| up := up gs; timestamp := timestamp gs;
         timeout := dur_add delta (dur_div delta 2%Z) |}
    else gs in
  let gs2 := {| up := up gs1; timestamp := ts; timeout := timeout gs1 |} in
  let gs3 := {| up := IsUp now gs2; timestamp := timestamp gs2;
                timeout := timeout gs2 |} in
  (gs3, xorb wasUp (up gs3)).

End tracking.

(** ** Package [strings] and [slices] (Go standard library) *)

Module strings.

(** [strings.Join(elems, sep)]. *)
Fixpoint Join (elems : list string) (sep : string) : string :=
  match elems with
  | [] => EmptyString
  | a :: rest =>
      match rest with
      | [] => a
      | _ :: _ => String.append a (String.append sep (Join rest sep))
      end
  end.

(** [strings.HasPrefix(s, prefix)]. *)
Definition HasPrefix (s prefix : string) : bool := String.prefix prefix s.

End strings.

Module slices.
Import time.

(** Go orders strings by their bytes, lexicographically. *)
Definition string_le (a b : string) : Prop := String.leb a b = true.

Definition string_le_dec (a b : string) : Decision (string_le a b) :=
  decide (String.leb a b = true).

(** [slices.Sort] on strings: the sorted rearrangement of the slice. *)
Definition Sort (x : list string) : list string :=
  @merge_sort string string_le string_le_dec x.

(** [slices.Contains]. *)
Definition Contains (s : list string) (v : string) : bool :=
  bool_decide (v ∈ s).

(** [slices.MinFunc] and [slices.MaxFunc] with [Time.Compare]: they
    panic ([None]) on an empty slice and keep the first extremal element. *)
Definition keep_min (m xi : Time) : Time :=
  if (Compare xi m <? 0)%Z then xi else m.

Definition keep_max (m xi : Time) : Time :=
  if (0 <? Compare xi m)%Z then xi else m.

Definition MinFunc (x : list Time) : option Time :=
  match x with
  | [] => None
  | m :: rest => Some (fold_left keep_min rest m)
  end.

Definition MaxFunc (x : list Time) : option Time :=
  match x with
  | [] => None
  | m :: rest => Some (fold_left keep_max rest m)
  end.

End slices.

(** ** Package [pushgateway] *)

Module pushgateway.
Import time.

(** An individual metric in a Metrics map. *)
Record Metric : Type := mkMetric { Timestamp : Time }.

(** A group of metrics from the Query API. [Metrics] is a map from
    metric names to metrics. *)
Record MetricsGroup : Type := mkMetricsGroup {
  Labels : gmap string string;
  Metrics : gmap string Metric;
}.

(** The order in which a [range] loop visits the names of a map. Go
    leaves it unspecified; where a function below fixes one, it is that
    of [map_to_list], and the properties of [Key_range] show that the
    choice is immaterial. *)
Definition range_names {V : Type} (m : gmap string V) : list string :=
  (map_to_list m).*1.

(** The test [name != "job"] of Key. *)
Definition not_job (name : string) : bool := negb (String.eqb name "job").

(** Key returns a path containing label names and values, starting with
    "job". [order] is the order in which [range g.Labels] visits the
    label names; a missing job label panics ([None]). *)
Definition Key_range (order : list string) (g : MetricsGroup)
  : option string :=
  match Labels g !! "job" with
  | None => None
  | Some job =>
      let names := List.filter not_job order in
      let names := slices.Sort names in
      let parts :=
        ["job"; job] ++
        flat_map (fun name => [name; default EmptyString (Labels g !! name)])
                 names in
      Some (strings.Join parts "/")
  end.

Definition Key (g : MetricsGroup) : option string :=
  Key_range (range_names (Labels g)) g.

(** The loop of LabelNamesMatch, which returns at the first name that is
    not a label. *)
Fixpoint names_present (labels : gmap string string) (names : list string)
  : bool :=
  match names with
  | [] => true
  | name :: rest =>
      match labels !! name with
      | None => false
      | Some _ => names_present labels rest
      end
  end.

(** LabelNamesMatch returns true if the group label and provided names
    match. *)
Definition LabelNamesMatch (g : MetricsGroup) (names : list string) : bool :=
  if names_present (Labels g) names
  then Nat.eqb (size (Labels g)) (length names)
  else false.

(** Filter returns a copy of the Metrics map with the names removed. *)
Definition Filter (m : gmap string Metric) (names : list string)
  : gmap string Metric :=
  filter (fun kv => slices.Contains names kv.1 = false) m.

Definition timestamps (m : gmap string Metric) : list Time :=
  (fun kv => Timestamp kv.2) <$> map_to_list m.

(** MaxTimestamp returns the highest metric timestamp, or a zero Time. *)
Definition MaxTimestamp (m : gmap string Metric) : option Time :=
  if Nat.eqb (size m) 0 then Some zero
  else slices.MaxFunc (timestamps m).

(** MinTimestamp returns the lowest metric timestamp, or a zero Time. *)
Definition MinTimestamp (m : gmap string Metric) : option Time :=
  if Nat.eqb (size m) 0 then Some zero
  else slices.MinFunc (timestamps m).

(** *** The generic JSON object of the Query API *)

(** The values [json.Unmarshal] stores in an [interface{}]. A number is a
    float64, given by its 64 bits; the program never looks at one. *)
#[warnings="-register-all"]
Inductive JSON : Type :=
| JNull
| JBool (b : bool)
| JNumber (bits : Z)
| JString (s : string)
| JArray (items : list JSON)
| JObject (fields : gmap string JSON).

(** The errors the package returns. Those of the libraries carry no
    detail; the two of the package's own carry their argument. *)
Inductive Error : Type :=
| KeyWithoutJobPrefix
| HTTPResponse (status : string)
| StatusAttribute (status : string)
| URLError
| RequestError
| TransportError
| ReadError
| UnmarshalError.

(** How a call ends: it returns a value, it returns an error, or it
    panics. *)
Inductive Outcome (A : Type) : Type :=
| Returned (a : A)
| Failed (err : Error)
| Panicked.

Arguments Returned {A} a.
Arguments Failed {A} err.
Arguments Panicked {A}.

(** An HTTP request as [http.NewRequest] builds it, and what the client
    gets back: [Body] is the result of [io.ReadAll], [None] when reading
    fails. *)
Record Request : Type := mkRequest {
  Method : string;
  URL : string;
  RequestBody : option string;
}.

Record Response : Type := mkResponse {
  StatusCode : Z;
  Status : string;
  Body : option string;
}.

Section Client.

(** [time.Parse(time.RFC3339, s)], [None] for an error. *)
Variable parseRFC3339 : string -> option Time.

(** [p.baseURL.Parse(ref)] followed by [String()], [None] for an error. *)
Variable resolve : string -> option string.

(** Whether [http.NewRequest] accepts the URL. *)
Variable valid_url : string -> bool.

(** [p.httpClient.Do] and [p.httpClient.Get], [None] for an error. *)
Variable Do : Request -> option Response.
Variable Get : string -> option Response.

(** [json.Unmarshal] into a [map[string]interface{}], [None] for an
    error. *)
Variable unmarshal : string -> option (gmap string JSON).

(** Delete deletes the metrics for key using a DELETE request. The result
    is the error returned, with the requests that were sent. *)
Definition Delete (key : string) : list Request * option Error :=
  if negb (strings.HasPrefix key "job/") then ([], Some KeyWithoutJobPrefix)
  else
    match resolve (String.append "/metrics/" key) with
    | None => ([], Some URLError)
    | Some url =>
        if negb (valid_url url) then ([], Some RequestError)
        else
          let req := {| Method := "DELETE"; URL := url;
                        RequestBody := None |} in
          match Do req with
          | None => ([req], Some TransportError)
          | Some res =>
              if negb (StatusCode res =? 202)%Z
              then ([req], Some (HTTPResponse (Status res)))
              else ([req], None)
          end
    end.

(** Upset pushes the up metric for key, using a PUT request when up is
    false. *)
Definition Upset (key : string) (up : bool) : list Request * option Error :=
  if negb (strings.HasPrefix key "job/") then ([], Some KeyWithoutJobPrefix)
  else
    match resolve (String.append "/metrics/" key) with
    | None => ([], Some URLError)
    | Some url =>
        if negb (valid_url url) then ([], Some RequestError)
        else
          let req :=
            if up then {| Method := "POST"; URL := url;
                          RequestBody := Some (String.append "up 1" (String "010" EmptyString)) |}
            else {| Method := "PUT"; URL := url;
                    RequestBody := Some (String.append "up 0" (String "010" EmptyString)) |} in
          match Do req with
          | None => ([req], Some TransportError)
          | Some res =>
              if negb (StatusCode res =? 200)%Z
              then ([req], Some (HTTPResponse (Status res)))
              else ([req], None)
          end
    end.

(** parseMetric: the time_stamp attribute must be a string in RFC 3339;
    [None] is a panic. *)
Definition parseMetric (data : gmap string JSON) : option Metric :=
  match data !! "time_stamp" with
  | Some (JString timestamp_string) =>
      match parseRFC3339 timestamp_string with
      | Some timestamp => Some {| Timestamp := timestamp |}
      | None => None
      end
  | _ => None
  end.

(** The loop of parseLabels over the entries of the object. *)
Fixpoint parseLabels_range (entries : list (string * JSON))
    (labels : gmap string string) : option (gmap string string) :=
  match entries with
  | [] => Some labels
  | (k, v) :: rest =>
      match v with
      | JString v_string => parseLabels_range rest (<[k := v_string]> labels)
      | _ => None
      end
  end.

Definition parseLabels (data : gmap string JSON) : option (gmap string string) :=
  parseLabels_range (map_to_list data) ∅.

(** The loop of parseMetricsGroup: values that are no objects are passed
    over, the object "labels" gives the labels, every other object is a
    metric. *)
Fixpoint parseMetricsGroup_range (entries : list (string * JSON))
    (labels : gmap string string) (metrics : gmap string Metric)
    : option MetricsGroup :=
  match entries with
  | [] => Some {| Labels := labels; Metrics := metrics |}
  | (k, v) :: rest =>
      match v with
      | JObject v_map =>
          if String.eqb k "labels" then
            match parseLabels v_map with
            | None => None
            | Some labels' => parseMetricsGroup_range rest labels' metrics
            end
          else
            match parseMetric v_map with
            | None => None
            | Some metric =>
                parseMetricsGroup_range rest labels (<[k := metric]> metrics)
            end
      | _ => parseMetricsGroup_range rest labels metrics
      end
  end.

Definition parseMetricsGroup (data : gmap string JSON) : option MetricsGroup :=
  parseMetricsGroup_range (map_to_list data) ∅ ∅.

(** The loop of parseMetricsGroups over the data array. *)
Fixpoint parseMetricsGroups_range (data : list JSON)
    (groups : list MetricsGroup) : option (list MetricsGroup) :=
  match data with
  | [] => Some groups
  | item :: rest =>
      match item with
      | JObject group =>
          match parseMetricsGroup group with
          | None => None
          | Some g => parseMetricsGroups_range rest (groups ++ [g])
          end
      | _ => None
      end
  end.

Definition parseMetricsGroups (object : gmap string JSON)
    : Outcome (list MetricsGroup) :=
  match object !! "status" with
  | Some (JString status) =>
      if negb (String.eqb status "success")
      then Failed (StatusAttribute status)
      else
        match object !! "data" with
        | Some (JArray data) =>
            match parseMetricsGroups_range data [] with
            | None => Panicked
            | Some groups => Returned groups
            end
        | _ => Panicked
        end
  | _ => Panicked
  end.

(** QueryMetrics calls the Query API and returns MetricsGroup objects.
    The error of [baseURL.Parse] is dropped: on an error the URL is nil
    and [url.String()] panics. *)
Definition QueryMetrics : Outcome (list MetricsGroup) :=
  match resolve "/api/v1/metrics" with
  | None => Panicked
  | Some url =>
      match Get url with
      | None => Failed TransportError
      | Some res =>
          if negb (StatusCode res =? 200)%Z
          then Failed (HTTPResponse (Status res))
          else
            match Body res with
            | None => Failed ReadError
            | Some body =>
                match unmarshal body with
                | None => Failed UnmarshalError
                | Some object => parseMetricsGroups object
                end
            end
      end
  end.

End Client.

End pushgateway.

(** ** Package [main]: the polling loop *)

Module main.
Import time tracking pushgateway.

(** What one iteration does to the outside: the lines it logs and the
    calls it makes on the Pushgateway client. The error a client call
    returns depends on the server's reply; the line logged for it is not
    part of the trace. *)
Inductive Event : Type :=
| LogQueryError
| LogGroupAdded (key : string)
| LogGroupExpired (key : string)
| ClientDelete (key : string)
| LogGroupUp (key : string)
| LogGroupDown (key : string)
| ClientUpset (key : string) (up : bool)
| LogGroupRemoved (key : string).

(** [states] is the map of the program; [reads] counts the calls of
    [time.Now()] made so far; [events] is the trace, oldest first. *)
Record World : Type := mkWorld {
  states : gmap string GroupState;
  reads : nat;
  events : list Event;
}.

Section Loop.

(** [clock n] is the instant returned by the call number [n] of
    [time.Now()]. *)
Variable clock : nat -> Time.

Variable groupTTL : Duration.

(** The body of [for _, group := range groups], on the world and the
    slice [receivedKeys]. [None] is a panic. *)
Definition loop_body (expirationTime : Time) (group : MetricsGroup)
    (s : World * list string) : option (World * list string) :=
  let '(w, receivedKeys) := s in
  if negb (LabelNamesMatch group ["job"; "instance"]) then Some s
  else
    match Key group with
    | None => None
    | Some key =>
      let receivedKeys := receivedKeys ++ [key] in
      let metrics :=
        Filter (Metrics group)
               ["up"; "push_time_seconds"; "push_failure_time_seconds"] in
      match MinTimestamp metrics with
      | None => None
      | Some timestamp =>
        match states w !! key with
        | None =>
            Some ({| states := <[key := NewGroupState timestamp]> (states w);
                     reads := reads w;
                     events := events w ++ [LogGroupAdded key] |},
                  receivedKeys)
        | Some state =>
          match MaxTimestamp (Metrics group) with
          | None => None
          | Some newest =>
            if Before newest expirationTime then
              Some ({| states := delete key (states w);
                       reads := reads w;
                       events := events w ++
                                 [LogGroupExpired key; ClientDelete key] |},
                    receivedKeys)
            else
              let '(state', changed) :=
                Update (clock (reads w)) timestamp state in
              if changed then
                let up := IsUp (clock (S (reads w))) state' in
                Some ({| states := <[key := state']> (states w);
                         reads := S (S (reads w));
                         events := events w ++
                                   [if up then LogGroupUp key
                                    else LogGroupDown key;
                                    ClientUpset key up] |},
                      receivedKeys)
              else
                Some ({| states := <[key := state']> (states w);
                         reads := S (reads w);
                         events := events w |},
                      receivedKeys)
          end
        end
      end
    end.

Fixpoint range_groups (expirationTime : Time) (groups : list MetricsGroup)
    (s : World * list string) : option (World * list string) :=
  match groups with
  | [] => Some s
  | group :: rest =>
      match loop_body expirationTime group s with
      | None => None
      | Some s' => range_groups expirationTime rest s'
      end
  end.

(** The body of [for key := range states]. *)
Definition sweep_body (receivedKeys : list string) (w : World)
    (key : string) : World :=
  if negb (slices.Contains receivedKeys key) then
    {| states := delete key (states w);
       reads := reads w;
       events := events w ++ [LogGroupRemoved key] |}
  else w.

Definition sweep (receivedKeys : list string) (w : World) : World :=
  fold_left (sweep_body receivedKeys) (range_names (states w)) w.

(** One iteration of the polling loop once the query has succeeded. *)
Definition tick (groups : list MetricsGroup) (w : World) : option World :=
  let receivedKeys := [] in
  let expirationTime := Add (clock (reads w)) (dur_neg groupTTL) in
  let w := {| states := states w; reads := S (reads w);
              events := events w |} in
  match range_groups expirationTime groups (w, receivedKeys) with
  | None => None
  | Some (w, receivedKeys) => Some (sweep receivedKeys w)
  end.

(** One iteration of [for _ = range time.Tick(refreshPeriod)]: the
    result of [client.QueryMetrics()] is the groups or an error. *)
Definition iteration (query : option (list MetricsGroup)) (w : World)
    : option World :=
  match query with
  | None =>
      Some {| states := states w; reads := reads w;
              events := events w ++ [LogQueryError] |}
  | Some groups => tick groups w
  end.

Fixpoint run (queries : list (option (list MetricsGroup))) (w : World)
    : option World :=
  match queries with
  | [] => Some w
  | query :: rest =>
      match iteration query w with
      | None => None
      | Some w' => run rest w'
      end
  end.

End Loop.

(** The program starts with no tracked group. *)
Definition start : World := {| states := ∅; reads := 0; events := [] |}.

End main.

(** ** The two earlier revisions of [main] kept in the source *)

(** The oldest revision: groups are added and updated, and never
    removed. It keeps no [receivedKeys]. *)
Module main_rev1.
Import time tracking pushgateway main.

Section Loop.

Variable clock : nat -> Time.

Definition loop_body (group : MetricsGroup) (w : World) : option World :=
  if negb (LabelNamesMatch group ["job"; "instance"]) then Some w
  else
    match Key group with
    | None => None
    | Some key =>
      let metrics :=
        Filter (Metrics group)
               ["up"; "push_time_seconds"; "push_failure_time_seconds"] in
      match MinTimestamp metrics with
      | None => None
      | Some timestamp =>
        match states w !! key with
        | None =>
            Some {| states := <[key := NewGroupState timestamp]> (states w);
                    reads := reads w;
                    events := events w ++ [LogGroupAdded key] |}
        | Some state =>
            let '(state', changed) :=
              Update (clock (reads w)) timestamp state in
            if changed then
              let up := IsUp (clock (S (reads w))) state' in
              Some {| states := <[key := state']> (states w);
                      reads := S (S (reads w));
                      events := events w ++
                                [if up then LogGroupUp key
                                 else LogGroupDown key;
                                 ClientUpset key up] |}
            else
              Some {| states := <[key := state']> (states w);
                      reads := S (reads w);
                      events := events w |}
        end
      end
    end.

Fixpoint tick (groups : list MetricsGroup) (w : World) : option World :=
  match groups with
  | [] => Some w
  | group :: rest =>
      match loop_body group w with
      | None => None
      | Some w' => tick rest w'
      end
  end.

End Loop.

End main_rev1.

(** The revision before the TTL: as the current one, without the
    expiration time and the expiry of groups. *)
Module main_rev2.
Import time tracking pushgateway main.

Section Loop.

Variable clock : nat -> Time.

Definition loop_body (group : MetricsGroup) (s : World * list string)
    : option (World * list string) :=
  let '(w, receivedKeys) := s in
  if negb (LabelNamesMatch group ["job"; "instance"]) then Some s
  else
    match Key group with
    | None => None
    | Some key =>
      let receivedKeys := receivedKeys ++ [key] in
      let metrics :=
        Filter (Metrics group)
               ["up"; "push_time_seconds"; "push_failure_time_seconds"] in
      match MinTimestamp metrics with
      | None => None
      | Some timestamp =>
        match states w !! key with
        | None =>
            Some ({| states := <[key := NewGroupState timestamp]> (states w);
                     reads := reads w;
                     events := events w ++ [LogGroupAdded key] |},
                  receivedKeys)
        | Some state =>
            let '(state', changed) :=
              Update (clock (reads w)) timestamp state in
            if changed then
              let up := IsUp (clock (S (reads w))) state' in
              Some ({| states := <[key := state']> (states w);
                       reads := S (S (reads w));
                       events := events w ++
                                 [if up then LogGroupUp key
                                  else LogGroupDown key;
                                  ClientUpset key up] |},
                    receivedKeys)
            else
              Some ({| states := <[key := state']> (states w);
                       reads := S (reads w);
                       events := events w |},
                    receivedKeys)
        end
      end
    end.

Fixpoint range_groups (groups : list MetricsGroup)
    (s : World * list string) : option (World * list string) :=
  match groups with
  | [] => Some s
  | group :: rest =>
      match loop_body group s with
      | None => None
      | Some s' => range_groups rest s'
      end
  end.

Definition tick (groups : list MetricsGroup) (w : World) : option World :=
  let receivedKeys := [] in
  match range_groups groups (w, receivedKeys) with
  | None => None
  | Some (w, receivedKeys) => Some (sweep receivedKeys w)
  end.

End Loop.

End main_rev2.

Import time tracking pushgateway main.

(** ** Vocabulary of the statements *)

(** The parts of a key after "job" and its value, for the other labels
    given as (name, value) pairs. *)
Definition pair_parts (pairs : list (string * string)) : list string :=
  flat_map (fun p : string * string => [p.1; p.2]) pairs.

(** A string without the separator "/" of keys. *)
Fixpoint no_slash (s : string) : bool :=
  match s with
  | EmptyString => true
  | String c s' => negb (Ascii.eqb c "/"%char) && no_slash s'
  end.

(** The label names and values of a group contain no "/". *)
Definition slash_free (g : MetricsGroup) : bool :=
  forallb (fun kv : string * string => no_slash kv.1 && no_slash kv.2)
          (map_to_list (Labels g)).

(** The keys one pass over [groups] appends to [receivedKeys]: those of
    the groups with the label names job and instance. *)
Definition received (groups : list MetricsGroup) : list string :=
  omap (fun group =>
          if LabelNamesMatch group ["job"; "instance"] then Key group
          else None)
       groups.

(** The group an event is about. *)
Definition event_key (e : Event) : option string :=
  match e with
  | LogQueryError => None
  | LogGroupAdded key | LogGroupExpired key | ClientDelete key
  | LogGroupUp key | LogGroupDown key | ClientUpset key _
  | LogGroupRemoved key => Some key
  end.

(** The events of a trace that are about the group [key]. *)
Definition about (key : string) (evs : list Event) : list Event :=
  List.filter (fun e => bool_decide (event_key e = Some key)) evs.

(** Every event of the list is about one of the groups [keys]. *)
Definition only_about (keys : list string) (evs : list Event) : Prop :=
  Forall (fun e => exists k, event_key e = Some k /\ k ∈ keys) evs.

(** The state of a group after a sequence of calls of [Update], each
    given as the clock reading of the call and the timestamp passed. *)
Definition observe (gs : GroupState) (calls : list (Time * Time))
  : GroupState :=
  fold_left (fun gs call => (Update call.1 call.2 gs).1) calls gs.

(** The names [main] removes from the metrics before taking the lowest
    timestamp. *)
Definition ignored : list string :=
  ["up"; "push_time_seconds"; "push_failure_time_seconds"].

(** The group of the tests of package [pushgateway], for [now] at
    2023-11-14T22:13:20Z. *)
Definition test_now : Time := 63835596800000000000%Z.
Definition test_later : Time := Add test_now 1000000000%Z.
Definition test_earlier : Time := Add test_now (dur_neg 1000000000%Z).

Definition test_group : MetricsGroup :=
  {| Labels := <["job" := "foo"]> (<["instance" := "bar"]> ∅);
     Metrics := <["baz" := mkMetric test_now]>
                  (<["push_time_seconds" := mkMetric test_later]>
                     (<["push_failure_time_seconds" :=
                          mkMetric test_earlier]> ∅)) |}.

(** * Properties *)

(** ** The tests of the repository *)

Example TestMetricsGroup :
  Key test_group = Some "job/foo/instance/bar" /\
  LabelNamesMatch test_group ["instance"; "job"] = true /\
  LabelNamesMatch test_group ["job"] = false /\
  LabelNamesMatch test_group ["instance"; "job"; "qux"] = false.
Proof. by vm_compute. Qed.

Example TestMetricsMinTimestamp :
  MinTimestamp (Metrics test_group) = Some test_earlier /\
  MinTimestamp (Filter (Metrics test_group)
                  ["push_time_seconds"; "push_failure_time_seconds"])
    = Some test_now /\
  MinTimestamp (Filter (Metrics test_group)
                  ["baz"; "push_time_seconds"; "push_failure_time_seconds"])
    = Some zero.
Proof. by vm_compute. Qed.

Example TestMetricsMaxTimestamp :
  MaxTimestamp (Metrics test_group) = Some test_later /\
  MaxTimestamp (Filter (Metrics test_group)
                  ["push_time_seconds"; "push_failure_time_seconds"])
    = Some test_now /\
  MaxTimestamp (Filter (Metrics test_group)
                  ["baz"; "push_time_seconds"; "push_failure_time_seconds"])
    = Some zero.
Proof. by vm_compute. Qed.

(** The tests of package [tracking]: a state created at [base] and
    updated a minute later is up while the clock is within 90 s of the
    update, and down an hour later. *)
Lemma Update_a_minute_later (base now : Time) :
  (0 < base)%Z ->
  Update now (Add base 60000000000%Z) (NewGroupState base) =
    ({| up := (now <? base + 150000000000)%Z;
        timestamp := Add base 60000000000%Z;
        timeout := 90000000000%Z |},
     (now <? base + 150000000000)%Z).
Proof.
  intros Hbase. unfold Update, NewGroupState. cbn [up timestamp timeout].
  assert (Sub (Add base 60000000000%Z) base = 60000000000%Z) as ->.
  { unfold Sub, Add.
    replace (base + 60000000000 - base)%Z with 60000000000%Z by lia.
    reflexivity. }
  assert (After (Add base 60000000000%Z) base = true) as ->.
  { unfold After, Add. apply Z.ltb_lt. lia. }
  assert (IsZero base = false) as ->.
  { unfold IsZero. apply Z.eqb_neq. lia. }
  cbn [andb negb].
  change (dur_add 60000000000%Z (dur_div 60000000000%Z 2%Z))
    with 90000000000%Z.
  unfold IsUp. cbn [up timestamp timeout].
  assert (IsZero (Add base 60000000000%Z) = false) as ->.
  { unfold IsZero, Add. apply Z.eqb_neq. lia. }
  cbn [orb Z.eqb]. unfold Before, Add.
  replace (base + 60000000000 + 90000000000)%Z
    with (base + 150000000000)%Z by lia.
  by destruct (now <? base + 150000000000)%Z.
Qed.

Example TestGroupState (base now : Time) :
  (0 < base)%Z -> (now < base + 150000000000)%Z ->
  Update now (Add base 60000000000%Z) (NewGroupState base) =
    ({| up := true; timestamp := Add base 60000000000%Z;
        timeout := 90000000000%Z |}, true).
Proof.
  intros Hbase Hnow%Z.ltb_lt.
  by rewrite Update_a_minute_later, Hnow.
Qed.

Example TestGroupStateDown (base now : Time) :
  (0 < base)%Z -> (base + 3600000000000 <= now)%Z ->
  forall later : Time,
    (base + 3600000000000 <= later)%Z ->
    IsUp later (Update now (Add base 60000000000%Z) (NewGroupState base)).1
    = false.
Proof.
  intros Hbase Hnow later Hlater.
  rewrite Update_a_minute_later by done. unfold IsUp, Before, Add.
  cbn [fst up timestamp timeout].
  destruct (IsZero (base + 60000000000)%Z); [done|]. cbn [orb Z.eqb].
  apply Z.ltb_ge. lia.
Qed.

(** ** The liveness detector *)

Lemma wrap64_id (z : Z) :
  (minDuration <= z <= maxDuration)%Z -> wrap64 z = z.
Proof.
  unfold wrap64, minDuration, maxDuration. intros Hz.
  rewrite Z.mod_small; lia.
Qed.

Lemma Sub_exact (t u : Time) :
  (minDuration <= t - u <= maxDuration)%Z -> Sub t u = (t - u)%Z.
Proof.
  unfold Sub. intros Hd.
  destruct (Z.ltb_spec (t - u) minDuration); [lia|].
  destruct (Z.ltb_spec maxDuration (t - u)); [lia|]. reflexivity.
Qed.

(** Without overflow, [delta + delta/2] on durations is the integer
    expression, and it is 1.5 times [delta] rounded down. *)
Lemma timeout_exact (delta : Z) :
  (0 < delta <= 6148914691236517205)%Z ->
  dur_add delta (dur_div delta 2%Z) = (delta + delta / 2)%Z /\
  (2 * (delta + delta / 2) <= 3 * delta < 2 * (delta + delta / 2) + 2)%Z.
Proof.
  intros Hd. unfold dur_add, dur_div.
  rewrite Z.quot_div_nonneg by lia.
  pose proof (Z.div_mod delta 2 ltac:(lia)) as Hdm.
  pose proof (Z.mod_pos_bound delta 2 ltac:(lia)) as Hm.
  rewrite (wrap64_id (delta / 2)) by (unfold minDuration, maxDuration; lia).
  rewrite wrap64_id by (unfold minDuration, maxDuration; lia).
  lia.
Qed.

Lemma Update_fields (now t : Time) (gs : GroupState) :
  let gs' := (Update now t gs).1 in
  timestamp gs' = t /\
  timeout gs' =
    (if After t (timestamp gs) && negb (IsZero (timestamp gs))
     then dur_add (Sub t (timestamp gs))
                  (dur_div (Sub t (timestamp gs)) 2%Z)
     else timeout gs) /\
  up gs' = IsUp now gs' /\
  (Update now t gs).2 = xorb (up gs) (up gs').
Proof.
  unfold Update. cbn.
  destruct (After t (timestamp gs) && negb (IsZero (timestamp gs))); cbn;
    auto.
Qed.

(** C1. [Update t]: when [t] is strictly after the stored timestamp and the
    stored timestamp is not the zero time, the timeout becomes
    [delta + delta/2] for [delta = t.Sub(timestamp)], computed on
    [Duration]; as long as this fits a [Duration] (gaps of up to
    6148914691236517205 ns) it is the integer [delta + delta/2] for the
    exact difference [delta = t - timestamp], that is 1.5 times the gap
    rounded down. In every other case the timeout keeps its value. In all
    cases the stored timestamp becomes [t]. *)
Theorem Update_timeout (now t : Time) (gs : GroupState) :
  let gs' := (Update now t gs).1 in
  (After t (timestamp gs) = true /\ IsZero (timestamp gs) = false ->
     let delta := Sub t (timestamp gs) in
     timeout gs' = dur_add delta (dur_div delta 2%Z)) /\
  (After t (timestamp gs) = true /\ IsZero (timestamp gs) = false ->
     (t - timestamp gs <= 6148914691236517205)%Z ->
     let delta := (t - timestamp gs)%Z in
     timeout gs' = (delta + delta / 2)%Z /\
     (2 * timeout gs' <= 3 * delta < 2 * timeout gs' + 2)%Z) /\
  (~ (After t (timestamp gs) = true /\ IsZero (timestamp gs) = false) ->
     timeout gs' = timeout gs) /\
  timestamp gs' = t.
Proof.
  destruct (Update_fields now t gs) as (Hts & Hto & _).
  cbv zeta in *.
  split; [|split; [|split]].
  - intros [Ha Hz]. rewrite Hto, Ha, Hz. reflexivity.
  - intros [Ha Hz] Hb. rewrite Hto, Ha, Hz. cbn [andb negb].
    pose proof Ha as Hlt. unfold After in Hlt. apply Z.ltb_lt in Hlt.
    rewrite Sub_exact by (unfold minDuration, maxDuration; lia).
    destruct (timeout_exact (t - timestamp gs)) as [-> Hr]; [lia|].
    split; [reflexivity | exact Hr].
  - intros Hn. rewrite Hto.
    destruct (After t (timestamp gs)), (IsZero (timestamp gs)); cbn; auto.
    exfalso. apply Hn. auto.
  - exact Hts.
Qed.

(** A first observation at 10 s and a second one at 30 s give a timeout of
    30 s. *)
Lemma Update_timeout_witness :
  timeout (Update 0%Z 30000000000%Z (NewGroupState 10000000000%Z)).1
  = 30000000000%Z.
Proof.
  destruct (Update_timeout 0%Z 30000000000%Z (NewGroupState 10000000000%Z))
    as (_ & H & _).
  apply H; [split; reflexivity | cbn; lia].
Defined.

(** C2. [IsUp] at the instant [now] is false whenever the stored timestamp
    is the zero time or the timeout is zero; otherwise it is true exactly
    when [now] is before [timestamp + timeout]. In particular, in that
    second case and with a positive timeout, it is true at
    [now = timestamp]; and with a positive timeout it is false at
    [timestamp + timeout] and at every later instant. *)
Theorem IsUp_verdict (now : Time) (gs : GroupState) :
  (IsZero (timestamp gs) = true \/ timeout gs = 0%Z -> IsUp now gs = false) /\
  (IsZero (timestamp gs) = false -> timeout gs <> 0%Z ->
     (IsUp now gs = true <-> (now < Add (timestamp gs) (timeout gs))%Z)) /\
  (IsZero (timestamp gs) = false -> (0 < timeout gs)%Z ->
     IsUp (timestamp gs) gs = true) /\
  ((0 < timeout gs)%Z -> (Add (timestamp gs) (timeout gs) <= now)%Z ->
     IsUp now gs = false).
Proof.
  unfold IsUp, Before, Add.
  split; [|split; [|split]].
  - intros [-> | ->]; [reflexivity|].
    rewrite Z.eqb_refl, orb_true_r. reflexivity.
  - intros -> Hne. apply Z.eqb_neq in Hne. rewrite Hne. cbn.
    apply Z.ltb_lt.
  - intros -> Hpos.
    destruct (Z.eqb_spec (timeout gs) 0); [lia|]. cbn.
    apply Z.ltb_lt. lia.
  - intros Hpos Hle.
    destruct (IsZero (timestamp gs) || (timeout gs =? 0)%Z); [reflexivity|].
    apply Z.ltb_ge. lia.
Qed.

(** A group last seen at 10 s with a timeout of 15 s is up at 10 s and at
    24 s, and down at 25 s. *)
Lemma IsUp_verdict_witness :
  let gs := {| up := false; timestamp := 10%Z; timeout := 15%Z |} in
  IsUp 10%Z gs = true /\ IsUp 24%Z gs = true /\ IsUp 25%Z gs = false.
Proof.
  intros gs.
  split; [|split].
  - destruct (IsUp_verdict 10%Z gs) as (_ & _ & H & _).
    apply H; [reflexivity | unfold gs; cbn; lia].
  - destruct (IsUp_verdict 24%Z gs) as (_ & H & _).
    apply H; [reflexivity | unfold gs; cbn; lia | unfold gs, Add; cbn; lia].
  - destruct (IsUp_verdict 25%Z gs) as (_ & _ & _ & H).
    apply H; unfold gs, Add; cbn; lia.
Defined.

(** C3. [Update] recomputes the verdict with [IsUp] on the updated
    timestamp and timeout, stores it in [up], and returns true exactly when
    it differs from the verdict stored before the call; on the first call
    after creation, where the stored verdict is false, it returns false
    when the verdict stays false. *)
Theorem Update_changed (now t : Time) (gs : GroupState) :
  let gs' := (Update now t gs).1 in
  let changed := (Update now t gs).2 in
  up gs' =
    IsUp now {| up := up gs; timestamp := t; timeout := timeout gs' |} /\
  (changed = true <-> up gs' <> up gs) /\
  (changed = false <-> up gs' = up gs) /\
  (forall t0 : Time,
     gs = NewGroupState t0 -> up gs' = false -> changed = false).
Proof.
  destruct (Update_fields now t gs) as (Hts & _ & Hup & Hch).
  cbv zeta in *. rewrite Hch.
  split; [|split; [|split]].
  - rewrite Hup. unfold IsUp. rewrite Hts. reflexivity.
  - destruct (up gs), (up (Update now t gs).1); cbn; split;
      congruence.
  - destruct (up gs), (up (Update now t gs).1); cbn; split;
      congruence.
  - intros t0 -> ->. reflexivity.
Qed.

(** The second observation, 10 s after the first, turns the group up
    (the call returns true); an observation that does not move the
    timestamp of a new group returns false. *)
Lemma Update_changed_witness :
  (Update 11%Z 20%Z (NewGroupState 10%Z)).2 = true /\
  (Update 11%Z 10%Z (NewGroupState 10%Z)).2 = false.
Proof.
  split.
  - apply (Update_changed 11%Z 20%Z (NewGroupState 10%Z)).
    vm_compute. discriminate.
  - destruct (Update_changed 11%Z 10%Z (NewGroupState 10%Z))
      as (_ & _ & _ & H).
    apply (H 10%Z); reflexivity.
Defined.

(** ** Metric timestamps *)

Section Extrema.
Import slices.

Lemma fold_min_spec (rest : list Time) (m : Time) :
  let r := fold_left keep_min rest m in
  (r = m \/ r ∈ rest) /\ (r <= m)%Z /\ (forall y, y ∈ rest -> (r <= y)%Z).
Proof.
  revert m. induction rest as [|x rest IH]; intros m; cbn.
  - split; [by left|]. split; [lia|]. intros y Hy. by apply elem_of_nil in Hy.
  - destruct (IH (keep_min m x)) as (Hin & Hle & Hall).
    assert (Hk : (keep_min m x <= m)%Z /\ (keep_min m x <= x)%Z /\
                 (keep_min m x = m \/ keep_min m x = x)).
    { unfold keep_min, Compare.
      destruct (Z.ltb_spec x m); cbn; [lia|].
      destruct (Z.ltb_spec m x); cbn; lia. }
    destruct Hk as (Hm & Hx & Hor).
    split; [|split].
    + destruct Hin as [Hin | Hin].
      * destruct Hor as [Hor | Hor]; rewrite Hin, Hor;
          [by left | right; apply elem_of_cons; by left].
      * right. apply elem_of_cons. by right.
    + lia.
    + intros y [-> | Hy]%elem_of_cons; [lia | by apply Hall].
Qed.

Lemma fold_max_spec (rest : list Time) (m : Time) :
  let r := fold_left keep_max rest m in
  (r = m \/ r ∈ rest) /\ (m <= r)%Z /\ (forall y, y ∈ rest -> (y <= r)%Z).
Proof.
  revert m. induction rest as [|x rest IH]; intros m; cbn.
  - split; [by left|]. split; [lia|]. intros y Hy. by apply elem_of_nil in Hy.
  - destruct (IH (keep_max m x)) as (Hin & Hle & Hall).
    assert (Hk : (m <= keep_max m x)%Z /\ (x <= keep_max m x)%Z /\
                 (keep_max m x = m \/ keep_max m x = x)).
    { unfold keep_max, Compare.
      destruct (Z.ltb_spec x m); cbn; [lia|].
      destruct (Z.ltb_spec m x); cbn; lia. }
    destruct Hk as (Hm & Hx & Hor).
    split; [|split].
    + destruct Hin as [Hin | Hin].
      * destruct Hor as [Hor | Hor]; rewrite Hin, Hor;
          [by left | right; apply elem_of_cons; by left].
      * right. apply elem_of_cons. by right.
    + lia.
    + intros y [-> | Hy]%elem_of_cons; [lia | by apply Hall].
Qed.

(** [slices.MinFunc] returns a least element of a non-empty slice. *)
Lemma MinFunc_spec (x : list Time) :
  x <> [] ->
  exists r, slices.MinFunc x = Some r /\ r ∈ x /\
            forall y, y ∈ x -> (r <= y)%Z.
Proof.
  destruct x as [|m rest]; [done|]. intros _. cbn [MinFunc].
  destruct (fold_min_spec rest m) as (Hin & Hle & Hall).
  eexists. split; [reflexivity|]. split.
  - apply elem_of_cons. destruct Hin as [-> | Hin]; auto.
  - intros y [-> | Hy]%elem_of_cons; [exact Hle | by apply Hall].
Qed.

Lemma MaxFunc_spec (x : list Time) :
  x <> [] ->
  exists r, slices.MaxFunc x = Some r /\ r ∈ x /\
            forall y, y ∈ x -> (y <= r)%Z.
Proof.
  destruct x as [|m rest]; [done|]. intros _. cbn [MaxFunc].
  destruct (fold_max_spec rest m) as (Hin & Hle & Hall).
  eexists. split; [reflexivity|]. split.
  - apply elem_of_cons. destruct Hin as [-> | Hin]; auto.
  - intros y [-> | Hy]%elem_of_cons; [exact Hle | by apply Hall].
Qed.

End Extrema.

Lemma elem_of_timestamps (m : gmap string Metric) (t : Time) :
  t ∈ timestamps m <->
  exists name metric, m !! name = Some metric /\ Timestamp metric = t.
Proof.
  unfold timestamps. rewrite list_elem_of_fmap. split.
  - intros ([name metric] & -> & Hin%elem_of_map_to_list). eauto.
  - intros (name & metric & Hm & <-). exists (name, metric).
    split; [reflexivity | by apply elem_of_map_to_list].
Qed.

Lemma timestamps_nil (m : gmap string Metric) :
  timestamps m = [] <-> m = ∅.
Proof.
  unfold timestamps. rewrite <- map_to_list_empty_iff. split.
  - apply fmap_nil_inv.
  - intros ->. reflexivity.
Qed.

Lemma size_eqb_0 (m : gmap string Metric) :
  Nat.eqb (size m) 0 = bool_decide (m = ∅).
Proof.
  destruct (Nat.eqb_spec (size m) 0) as [H | H].
  - apply map_size_empty_iff in H. by rewrite bool_decide_eq_true_2.
  - rewrite bool_decide_eq_false_2; [done|]. by rewrite <- map_size_empty_iff.
Qed.

(** MinTimestamp never panics: it is the zero time on the empty map, and
    otherwise the timestamp of one of the metrics, below all of them. *)
Lemma MinTimestamp_spec (m : gmap string Metric) :
  exists t, MinTimestamp m = Some t /\
    (m = ∅ -> t = zero) /\
    (m <> ∅ ->
       (exists name metric, m !! name = Some metric /\ Timestamp metric = t) /\
       forall name metric, m !! name = Some metric ->
                           (t <= Timestamp metric)%Z).
Proof.
  unfold MinTimestamp. rewrite size_eqb_0. case_bool_decide as He.
  - exists zero. by repeat split.
  - destruct (MinFunc_spec (timestamps m)) as (r & Hr & Hin & Hall).
    { by rewrite timestamps_nil. }
    exists r. split; [done|]. split; [done|]. intros _. split.
    + by apply elem_of_timestamps.
    + intros name metric Hm. apply Hall, elem_of_timestamps. eauto.
Qed.

(** MaxTimestamp never panics: it is the zero time on the empty map, and
    otherwise the timestamp of one of the metrics, above all of them. *)
Lemma MaxTimestamp_spec (m : gmap string Metric) :
  exists t, MaxTimestamp m = Some t /\
    (m = ∅ -> t = zero) /\
    (m <> ∅ ->
       (exists name metric, m !! name = Some metric /\ Timestamp metric = t) /\
       forall name metric, m !! name = Some metric ->
                           (Timestamp metric <= t)%Z).
Proof.
  unfold MaxTimestamp. rewrite size_eqb_0. case_bool_decide as He.
  - exists zero. by repeat split.
  - destruct (MaxFunc_spec (timestamps m)) as (r & Hr & Hin & Hall).
    { by rewrite timestamps_nil. }
    exists r. split; [done|]. split; [done|]. intros _. split.
    + by apply elem_of_timestamps.
    + intros name metric Hm. apply Hall, elem_of_timestamps. eauto.
Qed.

(** The metrics that [Filter] keeps are those whose name is not listed. *)
Lemma lookup_Filter (m : gmap string Metric) (names : list string)
    (name : string) (metric : Metric) :
  Filter m names !! name = Some metric <->
  m !! name = Some metric /\ name ∉ names.
Proof.
  unfold Filter, slices.Contains. rewrite map_lookup_filter_Some. cbn.
  rewrite bool_decide_eq_false. reflexivity.
Qed.

(** ** Label names *)

Lemma size_job_instance : size ({["job"; "instance"]} : gset string) = 2.
Proof.
  rewrite size_union, !size_singleton; [reflexivity|].
  apply disjoint_singleton_l. rewrite elem_of_singleton. discriminate.
Qed.

(** [LabelNamesMatch("job", "instance")] holds exactly when the set of
    label names is {job, instance}. *)
Lemma LabelNamesMatch_job_instance (g : MetricsGroup) :
  LabelNamesMatch g ["job"; "instance"] = true <->
  dom (Labels g) = ({["job"; "instance"]} : gset string).
Proof.
  unfold LabelNamesMatch. cbn [names_present length]. split.
  - destruct (Labels g !! "job") as [job|] eqn:Hjob; [|discriminate].
    destruct (Labels g !! "instance") as [inst|] eqn:Hinst; [|discriminate].
    intros Hsize%Nat.eqb_eq. symmetry. apply set_subseteq_size_eq.
    + intros name Hname. apply elem_of_dom.
      apply elem_of_union in Hname as [Hn | Hn];
        apply elem_of_singleton in Hn as ->; eauto.
    + rewrite size_dom, Hsize, size_job_instance. done.
  - intros Hdom.
    assert (Hj : is_Some (Labels g !! "job")).
    { apply elem_of_dom. rewrite Hdom. set_solver. }
    assert (Hi : is_Some (Labels g !! "instance")).
    { apply elem_of_dom. rewrite Hdom. set_solver. }
    destruct Hj as [job ->], Hi as [inst ->].
    apply Nat.eqb_eq. by rewrite <- size_dom, Hdom, size_job_instance.
Qed.

Lemma LabelNamesMatch_job (g : MetricsGroup) :
  LabelNamesMatch g ["job"; "instance"] = true ->
  is_Some (Labels g !! "job").
Proof.
  intros Hdom%LabelNamesMatch_job_instance.
  apply elem_of_dom. rewrite Hdom. set_solver.
Qed.

Lemma Key_range_is_Some (order : list string) (g : MetricsGroup) :
  is_Some (Labels g !! "job") -> is_Some (Key_range order g).
Proof. intros [job Hjob]. unfold Key_range. rewrite Hjob. eauto. Qed.

(** ** The order of [slices.Sort] on strings *)

Lemma string_compare_trans (a b c : string) :
  String.compare a b <> Gt -> String.compare b c <> Gt ->
  String.compare a c <> Gt.
Proof.
  revert b c. induction a as [|x a IH]; intros [|y b] [|z c]; cbn;
    try congruence.
  unfold Ascii.compare.
  destruct (N.compare_spec (Ascii.N_of_ascii x) (Ascii.N_of_ascii y)) as [Hxy|Hxy|Hxy];
    destruct (N.compare_spec (Ascii.N_of_ascii y) (Ascii.N_of_ascii z)) as [Hyz|Hyz|Hyz];
    destruct (N.compare_spec (Ascii.N_of_ascii x) (Ascii.N_of_ascii z)) as [Hxz|Hxz|Hxz];
    try congruence; try lia.
  apply IH.
Qed.

#[local] Instance string_le_trans : Transitive slices.string_le.
Proof.
  intros a b c. unfold slices.string_le, String.leb.
  pose proof (string_compare_trans a b c) as Ht.
  destruct (String.compare a b), (String.compare b c),
    (String.compare a c); try done; exfalso; by apply Ht.
Qed.

#[local] Instance string_le_antisym : AntiSymm (=) slices.string_le.
Proof. intros a b. apply String.leb_antisym. Qed.

#[local] Instance string_le_total : Total slices.string_le.
Proof. intros a b. apply String.leb_total. Qed.

(** [slices.Sort] returns the one sorted rearrangement of its argument. *)
Lemma Sort_sorted (x : list string) : Sorted slices.string_le (slices.Sort x).
Proof. apply Sorted_merge_sort, _. Qed.

Lemma Sort_Permutation (x : list string) : slices.Sort x ≡ₚ x.
Proof. apply merge_sort_Permutation. Qed.

Lemma Sort_unique (x y : list string) :
  x ≡ₚ y -> slices.Sort x = slices.Sort y.
Proof.
  intros Hxy. apply (Sorted_unique slices.string_le).
  - apply Sort_sorted.
  - apply Sort_sorted.
  - by rewrite !Sort_Permutation.
Qed.

(** ** Group keys *)

Lemma not_job_true (name : string) : not_job name = true <-> name <> "job".
Proof.
  unfold not_job. rewrite negb_true_iff. apply String.eqb_neq.
Qed.

Lemma filter_Perm {A : Type} (f : A -> bool) (x y : list A) :
  x ≡ₚ y -> List.filter f x ≡ₚ List.filter f y.
Proof.
  induction 1 as [|a x y _ IH|a b x|x y z _ IH1 _ IH2]; cbn.
  - reflexivity.
  - destruct (f a); [by constructor | done].
  - destruct (f a), (f b); try reflexivity. apply perm_swap.
  - by etrans.
Qed.

Lemma elem_of_range_names {V : Type} (m : gmap string V) (name : string) :
  name ∈ range_names m <-> is_Some (m !! name).
Proof.
  unfold range_names. rewrite list_elem_of_fmap. split.
  - intros ([k v] & -> & Hin%elem_of_map_to_list). eauto.
  - intros [v Hv]. exists (name, v). split; [done|].
    by apply elem_of_map_to_list.
Qed.

(** The names [Key] puts after the job label: the label names other than
    "job", each once, in increasing order. *)
Lemma other_names_spec (order : list string) (labels : gmap string string) :
  order ≡ₚ range_names labels ->
  let names := slices.Sort (List.filter not_job order) in
  Sorted slices.string_le names /\ NoDup names /\
  forall name, name ∈ names <-> name <> "job" /\ is_Some (labels !! name).
Proof.
  intros Hperm names. split; [apply Sort_sorted|].
  assert (Hnames : names ≡ₚ List.filter not_job (range_names labels)).
  { unfold names. rewrite Sort_Permutation. by apply filter_Perm. }
  split.
  - rewrite Hnames. apply NoDup_ListNoDup, List.NoDup_filter, NoDup_ListNoDup.
    apply NoDup_fst_map_to_list.
  - intros name. rewrite Hnames, list_elem_of_In, List.filter_In.
    rewrite <- list_elem_of_In, elem_of_range_names, not_job_true. tauto.
Qed.

Lemma pair_parts_names (value : string -> string) (names : list string) :
  flat_map (fun name => [name; value name]) names =
  pair_parts ((fun name => (name, value name)) <$> names).
Proof.
  unfold pair_parts. induction names as [|name names IH]; [reflexivity|].
  cbn. by rewrite <- IH.
Qed.

Lemma Key_range_pairs (order : list string) (g : MetricsGroup) (job : string) :
  Labels g !! "job" = Some job ->
  Key_range order g =
    Some (strings.Join
            ("job" :: job ::
               pair_parts ((fun name =>
                              (name, default EmptyString (Labels g !! name)))
                             <$> slices.Sort (List.filter not_job order)))
            "/").
Proof.
  intros Hjob. unfold Key_range. rewrite Hjob. cbn [app].
  by rewrite (pair_parts_names
                (fun name => default EmptyString (Labels g !! name))).
Qed.

(** The shape of a key: "job", its value, and the other labels as
    (name, value) pairs in increasing order of the names. *)
Lemma Key_range_shape (order : list string) (g : MetricsGroup) (job : string) :
  order ≡ₚ range_names (Labels g) ->
  Labels g !! "job" = Some job ->
  exists pairs : list (string * string),
    Sorted slices.string_le pairs.*1 /\
    NoDup pairs.*1 /\
    (forall name value,
       (name, value) ∈ pairs <->
       name <> "job" /\ Labels g !! name = Some value) /\
    Key_range order g =
      Some (strings.Join ("job" :: job :: pair_parts pairs) "/").
Proof.
  intros Hp Hjob.
  destruct (other_names_spec order (Labels g) Hp) as (Hs & Hnd & Hin).
  set (names := slices.Sort (List.filter not_job order)) in *.
  set (pairs := (fun name => (name, default EmptyString (Labels g !! name)))
                  <$> names).
  assert (Hfst : pairs.*1 = names).
  { unfold pairs. rewrite <- list_fmap_compose. apply list_fmap_id. }
  exists pairs. rewrite Hfst. split; [done|]. split; [done|]. split.
  - intros name value. unfold pairs. rewrite list_elem_of_fmap. split.
    + intros (n & [= -> ->] & [Hne [v Hv]]%Hin). by rewrite Hv.
    + intros [Hne Hv]. exists name. rewrite Hv. split; [done|].
      apply Hin. eauto.
  - by apply Key_range_pairs.
Qed.

(** C7. Two label maps with the same name/value pairs give the same key,
    whatever the order in which each map is visited: "job" and its value
    first, then the other label names in increasing (bytewise
    lexicographic) order, each followed by its value, joined with "/". *)
Theorem Key_order_independent (g1 g2 : MetricsGroup)
    (order1 order2 : list string) :
  (forall name, Labels g1 !! name = Labels g2 !! name) ->
  order1 ≡ₚ range_names (Labels g1) ->
  order2 ≡ₚ range_names (Labels g2) ->
  Key_range order1 g1 = Key_range order2 g2 /\
  forall job, Labels g1 !! "job" = Some job ->
    exists pairs : list (string * string),
      Sorted slices.string_le pairs.*1 /\
      NoDup pairs.*1 /\
      (forall name value,
         (name, value) ∈ pairs <->
         name <> "job" /\ Labels g1 !! name = Some value) /\
      Key_range order1 g1 =
        Some (strings.Join ("job" :: job :: pair_parts pairs) "/").
Proof.
  intros Hsame%map_eq Hp1 Hp2.
  assert (Hperm : order1 ≡ₚ order2) by by rewrite Hp1, Hp2, Hsame.
  split.
  - unfold Key_range. rewrite Hsame.
    destruct (Labels g2 !! "job") as [job|]; [|done].
    by rewrite (Sort_unique _ _ (filter_Perm not_job _ _ Hperm)).
  - intros job Hjob. by apply Key_range_shape.
Qed.

(** The labels job=foo, instance=bar, inserted and visited in the two
    possible orders, give the key job/foo/instance/bar. *)
Lemma Key_order_independent_witness :
  let g1 := {| Labels := <["job" := "foo"]> (<["instance" := "bar"]> ∅);
               Metrics := ∅ |} in
  let g2 := {| Labels := <["instance" := "bar"]> (<["job" := "foo"]> ∅);
               Metrics := ∅ |} in
  Key_range ["job"; "instance"] g1 = Key_range ["instance"; "job"] g2.
Proof.
  intros g1 g2.
  apply (Key_order_independent g1 g2 ["job"; "instance"] ["instance"; "job"]).
  - intros name. by vm_compute.
  - vm_compute. apply perm_swap.
  - vm_compute. reflexivity.
Defined.

(** ** Keys of different label sets *)

Lemma no_slash_cons (c : ascii) (s : string) :
  no_slash (String c s) = true <-> c <> "/"%char /\ no_slash s = true.
Proof.
  cbn. rewrite andb_true_iff, negb_true_iff. by rewrite Ascii.eqb_neq.
Qed.

Lemma no_slash_not_append (a b r : string) :
  no_slash a = true -> a <> String.append b (String "/" r).
Proof.
  revert b. induction a as [|c a IH]; intros [|d b] Ha; cbn; try discriminate.
  - apply no_slash_cons in Ha as [Hc _]. intros [= Heq]. done.
  - apply no_slash_cons in Ha as [_ Ha]. intros [= _ Heq]. by apply IH in Heq.
Qed.

Lemma append_slash_inj (a b r1 r2 : string) :
  no_slash a = true -> no_slash b = true ->
  String.append a (String "/" r1) = String.append b (String "/" r2) ->
  a = b /\ r1 = r2.
Proof.
  revert b. induction a as [|c a IH]; intros [|d b] Ha Hb; cbn.
  - intros [= ->]. done.
  - apply no_slash_cons in Hb as [Hd _]. intros [= Heq]. done.
  - apply no_slash_cons in Ha as [Hc _]. intros [= Heq]. done.
  - apply no_slash_cons in Ha as [_ Ha]. apply no_slash_cons in Hb as [_ Hb].
    intros [= -> Heq]. destruct (IH b Ha Hb Heq) as [-> ->]. done.
Qed.

Lemma Join_cons2 (a b : string) (rest : list string) :
  strings.Join (a :: b :: rest) "/" =
  String.append a (String "/" (strings.Join (b :: rest) "/")).
Proof. reflexivity. Qed.

(** Joining with "/" loses nothing when no part contains "/". *)
Lemma Join_inj (l1 l2 : list string) :
  Forall (fun s => no_slash s = true) l1 ->
  Forall (fun s => no_slash s = true) l2 ->
  l1 <> [] -> l2 <> [] ->
  strings.Join l1 "/" = strings.Join l2 "/" -> l1 = l2.
Proof.
  revert l2. induction l1 as [|a r1 IH]; intros [|b r2] H1 H2 Hn1 Hn2;
    try done.
  apply Forall_cons in H1 as [Ha H1]. apply Forall_cons in H2 as [Hb H2].
  destruct r1 as [|a' r1], r2 as [|b' r2].
  - cbn. by intros ->.
  - rewrite Join_cons2. cbn [strings.Join]. intros Heq.
    by apply no_slash_not_append in Heq.
  - rewrite Join_cons2. cbn [strings.Join]. intros Heq. symmetry in Heq.
    by apply no_slash_not_append in Heq.
  - rewrite !Join_cons2. intros [-> Heq]%append_slash_inj; [|done..].
    f_equal. by apply IH.
Qed.

Lemma pair_parts_inj (p1 p2 : list (string * string)) :
  pair_parts p1 = pair_parts p2 -> p1 = p2.
Proof.
  unfold pair_parts. revert p2.
  induction p1 as [|[n1 v1] p1 IH]; intros [|[n2 v2] p2]; cbn; try done.
  intros [= -> -> Heq]. f_equal. by apply IH.
Qed.

Lemma slash_free_lookup (g : MetricsGroup) (name value : string) :
  slash_free g = true -> Labels g !! name = Some value ->
  no_slash name = true /\ no_slash value = true.
Proof.
  unfold slash_free. rewrite forallb_forall. intros Hall Hl.
  apply elem_of_map_to_list, list_elem_of_In, Hall in Hl.
  by apply andb_true_iff in Hl.
Qed.

(** Keys determine the labels of groups whose names and values have no
    "/". *)
Lemma Key_range_inj (g1 g2 : MetricsGroup) (order1 order2 : list string) :
  order1 ≡ₚ range_names (Labels g1) ->
  order2 ≡ₚ range_names (Labels g2) ->
  is_Some (Labels g1 !! "job") -> is_Some (Labels g2 !! "job") ->
  slash_free g1 = true -> slash_free g2 = true ->
  Key_range order1 g1 = Key_range order2 g2 ->
  Labels g1 = Labels g2.
Proof.
  intros Hp1 Hp2 [job1 Hj1] [job2 Hj2] Hf1 Hf2 Hkey.
  destruct (Key_range_shape order1 g1 job1 Hp1 Hj1)
    as (pairs1 & _ & _ & Hin1 & Hk1).
  destruct (Key_range_shape order2 g2 job2 Hp2 Hj2)
    as (pairs2 & _ & _ & Hin2 & Hk2).
  rewrite Hk1, Hk2 in Hkey.
  assert (Hjoin : strings.Join ("job" :: job1 :: pair_parts pairs1) "/" =
                  strings.Join ("job" :: job2 :: pair_parts pairs2) "/")
    by congruence.
  clear Hkey.
  assert (Hparts : forall (g : MetricsGroup) job pairs,
            slash_free g = true -> Labels g !! "job" = Some job ->
            (forall name value, (name, value) ∈ pairs <->
               name <> "job" /\ Labels g !! name = Some value) ->
            Forall (fun s => no_slash s = true)
                   ("job" :: job :: pair_parts pairs)).
  { intros g job pairs Hf Hj Hin.
    apply Forall_cons. split; [reflexivity|].
    apply Forall_cons. split; [by apply (slash_free_lookup g _ _ Hf Hj)|].
    apply Forall_forall. intros s Hs. unfold pair_parts in Hs.
    apply list_elem_of_In, in_flat_map in Hs as ([name value] & Hp & Hs).
    apply list_elem_of_In, Hin in Hp as [_ Hp].
    apply (slash_free_lookup g _ _ Hf) in Hp as [Hn Hv].
    cbn in Hs. destruct Hs as [<- | [<- | []]]; done. }
  apply Join_inj in Hjoin;
    [| apply (Hparts g1 job1 pairs1 Hf1 Hj1 Hin1)
     | apply (Hparts g2 job2 pairs2 Hf2 Hj2 Hin2) | done..].
  injection Hjoin as -> ->%pair_parts_inj.
  apply map_eq. intros name.
  destruct (decide (name = "job")) as [-> | Hne]; [by rewrite Hj1, Hj2|].
  apply option_eq. intros value.
  split; intros Hv.
  - by apply Hin2, Hin1.
  - by apply Hin1, Hin2.
Qed.

(** C4 fails as stated: keys are joined with "/" and nothing is escaped.
    The labels job="a/instance/b", instance="c" and the labels job="a",
    instance="b/instance/c" have the same names and different values, and
    the same key. *)
Lemma Key_collision :
  let g1 := {| Labels := <["job" := "a/instance/b"]> (<["instance" := "c"]> ∅);
               Metrics := ∅ |} in
  let g2 := {| Labels := <["job" := "a"]> (<["instance" := "b/instance/c"]> ∅);
               Metrics := ∅ |} in
  LabelNamesMatch g1 ["job"; "instance"] = true /\
  LabelNamesMatch g2 ["job"; "instance"] = true /\
  Labels g1 !! "instance" <> Labels g2 !! "instance" /\
  Labels g1 <> Labels g2 /\
  Key g1 = Some "job/a/instance/b/instance/c" /\
  Key g2 = Some "job/a/instance/b/instance/c" /\
  ~ (forall h1 h2 : MetricsGroup,
       is_Some (Labels h1 !! "job") -> is_Some (Labels h2 !! "job") ->
       (exists name v1 v2,
          Labels h1 !! name = Some v1 /\ Labels h2 !! name = Some v2 /\
          v1 <> v2) ->
       Key h1 <> Key h2).
Proof.
  intros g1 g2.
  assert (Hv : Labels g1 !! "instance" <> Labels g2 !! "instance")
    by (vm_compute; discriminate).
  assert (Hne : Labels g1 <> Labels g2) by (intros Heq; by rewrite Heq in Hv).
  split; [by vm_compute|]. split; [by vm_compute|].
  split; [done|]. split; [done|].
  split; [by vm_compute|]. split; [by vm_compute|].
  intros Hinj.
  apply (Hinj g1 g2); [eexists; by vm_compute | eexists; by vm_compute
                      | | by vm_compute].
  exists "instance", "c", "b/instance/c".
  split; [by vm_compute|]. split; [by vm_compute | discriminate].
Qed.

(** C4, amended. Two label sets with a job label whose names and values
    contain no "/" and which differ (in a name or in a value) have
    different keys, whatever the order in which the labels are visited. *)
Theorem Key_distinct_no_slash (g1 g2 : MetricsGroup)
    (order1 order2 : list string) :
  order1 ≡ₚ range_names (Labels g1) ->
  order2 ≡ₚ range_names (Labels g2) ->
  is_Some (Labels g1 !! "job") -> is_Some (Labels g2 !! "job") ->
  slash_free g1 = true -> slash_free g2 = true ->
  Labels g1 <> Labels g2 ->
  Key_range order1 g1 <> Key_range order2 g2.
Proof.
  intros Hp1 Hp2 Hj1 Hj2 Hf1 Hf2 Hne Hkey. apply Hne.
  by apply (Key_range_inj g1 g2 order1 order2).
Qed.

(** The labels job=foo, instance=bar and job=foo, instance=baz have
    different keys. *)
Lemma Key_distinct_no_slash_witness :
  let g1 := {| Labels := <["job" := "foo"]> (<["instance" := "bar"]> ∅);
               Metrics := ∅ |} in
  let g2 := {| Labels := <["job" := "foo"]> (<["instance" := "baz"]> ∅);
               Metrics := ∅ |} in
  Key_range ["job"; "instance"] g1 <> Key_range ["instance"; "job"] g2.
Proof.
  intros g1 g2.
  apply (Key_distinct_no_slash g1 g2).
  - vm_compute. apply perm_swap.
  - vm_compute. reflexivity.
  - eexists. by vm_compute.
  - eexists. by vm_compute.
  - reflexivity.
  - reflexivity.
  - intros Heq. apply (f_equal (fun m => m !! "instance")) in Heq.
    vm_compute in Heq. discriminate.
Defined.

(** ** The polling loop *)

Section LoopFacts.

Variable clock : nat -> Time.

(** A group without the label names job and instance is passed over. *)
Lemma loop_body_skip (exp : Time) (g : MetricsGroup)
    (s : World * list string) :
  LabelNamesMatch g ["job"; "instance"] = false ->
  loop_body clock exp g s = Some s.
Proof. destruct s as [w rk]. unfold loop_body. by intros ->. Qed.

(** The loop body on a group with the label names job and instance,
    branch by branch. *)
Lemma loop_body_cases (exp : Time) (g : MetricsGroup) (w : World)
    (rk : list string) :
  LabelNamesMatch g ["job"; "instance"] = true ->
  exists key ts newest,
    Key g = Some key /\
    MinTimestamp (Filter (Metrics g) ignored) = Some ts /\
    MaxTimestamp (Metrics g) = Some newest /\
    exists w',
      loop_body clock exp g (w, rk) = Some (w', rk ++ [key]) /\
      match states w !! key with
      | None =>
          w' = {| states := <[key := NewGroupState ts]> (states w);
                  reads := reads w;
                  events := events w ++ [LogGroupAdded key] |}
      | Some st =>
          if Before newest exp then
            w' = {| states := delete key (states w);
                    reads := reads w;
                    events := events w ++
                              [LogGroupExpired key; ClientDelete key] |}
          else
            let st' := (Update (clock (reads w)) ts st).1 in
            states w' = <[key := st']> (states w) /\
            if (Update (clock (reads w)) ts st).2 then
              let up := IsUp (clock (S (reads w))) st' in
              reads w' = S (S (reads w)) /\
              events w' = events w ++
                          [if up then LogGroupUp key else LogGroupDown key;
                           ClientUpset key up]
            else
              reads w' = S (reads w) /\ events w' = events w
      end.
Proof.
  intros Hm. unfold loop_body, ignored. rewrite Hm. cbn [negb].
  destruct (Key_range_is_Some (range_names (Labels g)) g
              (LabelNamesMatch_job g Hm)) as [key Hkey].
  unfold Key. rewrite Hkey.
  destruct (MinTimestamp_spec
              (Filter (Metrics g)
                 ["up"; "push_time_seconds"; "push_failure_time_seconds"]))
    as (ts & Hts & _).
  destruct (MaxTimestamp_spec (Metrics g)) as (newest & Hmax & _).
  exists key, ts, newest. rewrite Hts, Hmax.
  do 3 (split; [done|]).
  destruct (states w !! key) as [st|]; [|eauto].
  destruct (Before newest exp); [eauto|].
  destruct (Update (clock (reads w)) ts st) as [st' [|]]; cbn [fst snd];
    eexists; (split; [reflexivity|]); cbn; auto.
Qed.

Lemma received_cons (g : MetricsGroup) (groups : list MetricsGroup) :
  received (g :: groups) = received [g] ++ received groups.
Proof.
  unfold received. cbn.
  destruct (LabelNamesMatch g ["job"; "instance"]); [|done].
  by destruct (Key g).
Qed.

Lemma received_one (g : MetricsGroup) (key : string) :
  LabelNamesMatch g ["job"; "instance"] = true -> Key g = Some key ->
  received [g] = [key].
Proof. intros Hm Hk. unfold received. cbn. by rewrite Hm, Hk. Qed.

(** The loop body touches only the state and the events of the group it
    is given, and appends the key of the group to [receivedKeys]. *)
Lemma loop_body_frame (exp : Time) (g : MetricsGroup) (w : World)
    (rk : list string) :
  exists w',
    loop_body clock exp g (w, rk) = Some (w', rk ++ received [g]) /\
    (forall k, k ∉ received [g] -> states w' !! k = states w !! k) /\
    exists evs, events w' = events w ++ evs /\ only_about (received [g]) evs.
Proof.
  destruct (LabelNamesMatch g ["job"; "instance"]) eqn:Hm.
  - destruct (loop_body_cases exp g w rk Hm)
      as (key & ts & newest & Hkey & _ & _ & w' & Hbody & Hw').
    rewrite (received_one g key Hm Hkey).
    assert (Hk : forall e, event_key e = Some key ->
              exists k, event_key e = Some k /\ k ∈ [key]).
    { intros e He. exists key. split; [done | apply list_elem_of_singleton; done]. }
    exists w'. split; [done|].
    destruct (states w !! key) as [st|].
    + destruct (Before newest exp).
      * subst w'. cbn. split.
        { intros k Hne. apply lookup_delete_ne. set_solver. }
        eexists. split; [done|]. repeat constructor; by apply Hk.
      * cbv zeta in Hw'. destruct Hw' as [Hst Hev]. rewrite Hst. split.
        { intros k Hne. apply lookup_insert_ne. set_solver. }
        destruct (Update (clock (reads w)) ts st).2.
        -- destruct Hev as [_ Hev]. eexists. split; [done|].
           repeat constructor; apply Hk; [by destruct (IsUp _ _) | done].
        -- destruct Hev as [_ Hev]. exists []. rewrite app_nil_r.
           split; [done | constructor].
    + subst w'. cbn. split.
      { intros k Hne. apply lookup_insert_ne. set_solver. }
      eexists. split; [done|]. repeat constructor; by apply Hk.
  - rewrite (loop_body_skip exp g (w, rk) Hm).
    assert (Hr : received [g] = []) by (unfold received; cbn; by rewrite Hm).
    rewrite Hr, app_nil_r. exists w. split; [done|]. split; [done|].
    exists []. rewrite app_nil_r. split; [done | constructor].
Qed.

Lemma only_about_app (keys1 keys2 : list string) (evs1 evs2 : list Event) :
  only_about keys1 evs1 -> only_about keys2 evs2 ->
  only_about (keys1 ++ keys2) (evs1 ++ evs2).
Proof.
  intros H1 H2. apply Forall_app. split; (eapply Forall_impl; [eassumption|]).
  - intros e (k & He & Hk). exists k. split; [done|]. set_solver.
  - intros e (k & He & Hk). exists k. split; [done|]. set_solver.
Qed.

(** The same for a pass over a list of groups; the pass never panics. *)
Lemma range_groups_frame (exp : Time) (groups : list MetricsGroup)
    (w : World) (rk : list string) :
  exists w',
    range_groups clock exp groups (w, rk) = Some (w', rk ++ received groups) /\
    (forall k, k ∉ received groups -> states w' !! k = states w !! k) /\
    exists evs, events w' = events w ++ evs /\
                only_about (received groups) evs.
Proof.
  revert w rk. induction groups as [|g groups IH]; intros w rk.
  - exists w. cbn. rewrite app_nil_r. split; [done|]. split; [done|].
    exists []. rewrite app_nil_r. split; [done | constructor].
  - destruct (loop_body_frame exp g w rk)
      as (w1 & Hbody & Hst1 & evs1 & Hev1 & Hab1).
    destruct (IH w1 (rk ++ received [g]))
      as (w2 & Hrest & Hst2 & evs2 & Hev2 & Hab2).
    exists w2. cbn [range_groups].
    rewrite Hbody, Hrest, (received_cons g groups).
    split; [by rewrite app_assoc|]. split.
    + intros k Hk. rewrite Hst2, Hst1; [done | set_solver..].
    + exists (evs1 ++ evs2). rewrite Hev2, Hev1.
      split; [by rewrite app_assoc|]. by apply only_about_app.
Qed.

Lemma range_groups_app (exp : Time) (pre post : list MetricsGroup)
    (s : World * list string) :
  range_groups clock exp (pre ++ post) s =
  match range_groups clock exp pre s with
  | None => None
  | Some s' => range_groups clock exp post s'
  end.
Proof.
  revert s. induction pre as [|g pre IH]; intros s; [done|]. cbn.
  destruct (loop_body clock exp g s); [apply IH | done].
Qed.

Lemma about_app (key : string) (evs1 evs2 : list Event) :
  about key (evs1 ++ evs2) = about key evs1 ++ about key evs2.
Proof. apply List.filter_app. Qed.

Lemma about_none (key : string) (keys : list string) (evs : list Event) :
  only_about keys evs -> key ∉ keys -> about key evs = [].
Proof.
  intros Hall Hkey. induction Hall as [|e evs (k & He & Hk) _ IH];
    [done|].
  unfold about in *. cbn. rewrite IH, He.
  rewrite bool_decide_eq_false_2; [done|]. intros [= ->]. done.
Qed.

Lemma about_removed (key : string) (keys : list string) :
  NoDup keys ->
  about key (LogGroupRemoved <$> keys) =
  if bool_decide (key ∈ keys) then [LogGroupRemoved key] else [].
Proof.
  induction 1 as [|k keys Hk Hnd IH]; [done|].
  unfold about in *. cbn. rewrite IH.
  destruct (decide (k = key)) as [-> | Hne].
  - rewrite bool_decide_eq_true_2 by done.
    rewrite (bool_decide_eq_false_2 (key ∈ keys)) by done.
    rewrite bool_decide_eq_true_2; [done | by left].
  - rewrite bool_decide_eq_false_2 by congruence.
    destruct (decide (key ∈ keys)) as [Hin | Hin].
    + rewrite (bool_decide_eq_true_2 (key ∈ keys)) by done.
      rewrite bool_decide_eq_true_2; [done | by right].
    + rewrite (bool_decide_eq_false_2 (key ∈ keys)) by done.
      rewrite bool_decide_eq_false_2; [done|].
      intros [? | ?]%elem_of_cons; done.
Qed.

(** The final loop removes the tracked keys that were not received, and
    logs each of them. *)
Lemma sweep_fold (rk keys : list string) (w : World) :
  let w' := fold_left (sweep_body rk) keys w in
  (forall k, k ∈ keys -> k ∉ rk -> states w' !! k = None) /\
  (forall k, k ∉ keys \/ k ∈ rk -> states w' !! k = states w !! k) /\
  reads w' = reads w /\
  events w' =
    events w ++ (LogGroupRemoved <$> filter (fun k => k ∉ rk) keys).
Proof.
  revert w. induction keys as [|key keys IH]; intros w; cbn [fold_left].
  - split; [intros k Hk; by apply elem_of_nil in Hk|].
    rewrite filter_nil. cbn. by rewrite app_nil_r.
  - destruct (IH (sweep_body rk w key)) as (Hgone & Hkept & Hreads & Hev).
    unfold sweep_body, slices.Contains in *.
    rewrite filter_cons.
    destruct (decide (key ∈ rk)) as [Hin | Hin].
    + rewrite bool_decide_eq_true_2 in * by done. cbn [negb] in *.
      rewrite decide_False by (intros Hn; by apply Hn).
      split; [|split; [|done]].
      * intros k Hk Hnk. apply elem_of_cons in Hk as [Heq | Hk];
          [by subst k | by apply Hgone].
      * intros k Hk. apply Hkept. destruct Hk as [Hk | Hk]; [|by right].
        left. intros Hk'. apply Hk, elem_of_cons. by right.
    + rewrite bool_decide_eq_false_2 in * by done. cbn [negb] in *.
      cbn in Hkept, Hreads, Hev. rewrite decide_True by done.
      split; [|split; [|split]].
      * intros k Hk Hnk. apply elem_of_cons in Hk as [Heq | Hk];
          [|by apply Hgone]. subst k.
        destruct (decide (key ∈ keys)) as [Hk | Hk]; [by apply Hgone|].
        rewrite Hkept by (by left). apply lookup_delete_eq.
      * intros k Hk.
        assert (Hne : key <> k).
        { intros ->. destruct Hk as [Hk | Hk]; [|done].
          apply Hk, elem_of_cons. by left. }
        rewrite Hkept; [by apply lookup_delete_ne|].
        destruct Hk as [Hk | Hk]; [|by right].
        left. intros Hk'. apply Hk, elem_of_cons. by right.
      * done.
      * rewrite Hev. cbn. by rewrite <- app_assoc.
Qed.

Variable groupTTL : Duration.

(** A tracked key that no group of the snapshot carries is dropped by the
    tick, and the only event about it is the log line of the removal. *)
Lemma tick_unreceived (groups : list MetricsGroup) (w : World)
    (key : string) (st : GroupState) :
  states w !! key = Some st ->
  key ∉ received groups ->
  exists w',
    tick clock groupTTL groups w = Some w' /\
    states w' !! key = None /\
    exists evs, events w' = events w ++ evs /\
                about key evs = [LogGroupRemoved key].
Proof.
  intros Hst Hkey. unfold tick.
  destruct (range_groups_frame
              (Add (clock (reads w)) (dur_neg groupTTL)) groups
              {| states := states w; reads := S (reads w);
                 events := events w |} [])
    as (w1 & -> & Hst1 & evs1 & Hev1 & Hab1).
  cbn [app] in *. cbn in Hst1, Hev1.
  destruct (sweep_fold (received groups) (range_names (states w1)) w1)
    as (Hgone & _ & _ & Hev).
  exists (sweep (received groups) w1). split; [done|]. split.
  - apply Hgone; [|done]. apply elem_of_range_names.
    rewrite Hst1 by done. eauto.
  - eexists. unfold sweep. rewrite Hev, Hev1, <- app_assoc.
    split; [done|].
    rewrite about_app, (about_none key _ _ Hab1 Hkey). cbn [app].
    rewrite about_removed.
    + rewrite bool_decide_eq_true_2; [done|].
      apply list_elem_of_filter. split; [done|].
      apply elem_of_range_names. rewrite Hst1 by done. eauto.
    + apply NoDup_filter, NoDup_fst_map_to_list.
Qed.

(** A key carried by exactly one group [g] of the snapshot: its state at
    the end of the tick and the events about it are those of the loop
    body on [g], which finds the state the key had when the tick began. *)
Lemma tick_once (pre post : list MetricsGroup) (g : MetricsGroup)
    (w : World) (key : string) :
  LabelNamesMatch g ["job"; "instance"] = true ->
  Key g = Some key ->
  key ∉ received pre -> key ∉ received post ->
  exists w1 rk1 w2 w' step_evs evs,
    states w1 !! key = states w !! key /\
    loop_body clock (Add (clock (reads w)) (dur_neg groupTTL)) g (w1, rk1)
      = Some (w2, rk1 ++ [key]) /\
    events w2 = events w1 ++ step_evs /\
    tick clock groupTTL (pre ++ g :: post) w = Some w' /\
    states w' !! key = states w2 !! key /\
    events w' = events w ++ evs /\
    about key evs = about key step_evs.
Proof.
  intros Hm Hk Hpre Hpost. unfold tick.
  set (exp := Add (clock (reads w)) (dur_neg groupTTL)).
  set (w0 := {| states := states w; reads := S (reads w);
                events := events w |}).
  destruct (range_groups_frame exp pre w0 [])
    as (w1 & Hr1 & Hst1 & evs1 & Hev1 & Hab1).
  destruct (loop_body_frame exp g w1 ([] ++ received pre))
    as (w2 & Hbody & _ & evs2 & Hev2 & _).
  rewrite (received_one g key Hm Hk) in Hbody.
  destruct (range_groups_frame exp post w2 (([] ++ received pre) ++ [key]))
    as (w3 & Hr3 & Hst3 & evs3 & Hev3 & Hab3).
  set (rk3 := (([] ++ received pre) ++ [key]) ++ received post) in *.
  destruct (sweep_fold rk3 (range_names (states w3)) w3)
    as (_ & Hkept & _ & Hev).
  exists w1, ([] ++ received pre), w2, (sweep rk3 w3), evs2,
    (evs1 ++ evs2 ++ evs3 ++
       (LogGroupRemoved <$>
          filter (fun k => k ∉ rk3) (range_names (states w3)))).
  assert (Hin : key ∈ rk3).
  { unfold rk3. apply elem_of_app. left. apply elem_of_app. right.
    by apply list_elem_of_singleton. }
  split; [by rewrite Hst1|]. split; [exact Hbody|]. split; [exact Hev2|].
  split.
  { rewrite range_groups_app, Hr1. cbn [range_groups].
    by rewrite Hbody, Hr3. }
  split.
  { unfold sweep. rewrite Hkept by (by right). by apply Hst3. }
  split.
  { unfold sweep. rewrite Hev, Hev3, Hev2, Hev1. cbn [events w0].
    by rewrite <- !app_assoc. }
  rewrite !about_app, (about_none key _ _ Hab1 Hpre),
    (about_none key _ _ Hab3 Hpost).
  rewrite about_removed by apply NoDup_filter, NoDup_fst_map_to_list.
  rewrite bool_decide_eq_false_2.
  - cbn [app]. by rewrite app_nil_r.
  - intros [Hn _]%list_elem_of_filter. exact (Hn Hin).
Qed.

(** The polling loop never panics. *)
Lemma tick_total (groups : list MetricsGroup) (w : World) :
  is_Some (tick clock groupTTL groups w).
Proof.
  unfold tick.
  destruct (range_groups_frame
              (Add (clock (reads w)) (dur_neg groupTTL)) groups
              {| states := states w; reads := S (reads w);
                 events := events w |} [])
    as (w1 & -> & _). eauto.
Qed.

Lemma run_total (queries : list (option (list MetricsGroup))) (w : World) :
  is_Some (run clock groupTTL queries w).
Proof.
  revert w. induction queries as [|query queries IH]; intros w; [by eexists|].
  cbn [run]. destruct query as [groups|]; cbn [iteration].
  - destruct (tick_total groups w) as [w' ->]. apply IH.
  - apply IH.
Qed.

End LoopFacts.

(** ** The timestamps a group is judged by *)

(** The lowest timestamp of the metrics left by the filter, in terms of
    the metrics of the group. *)
Lemma MinTimestamp_Filter (m : gmap string Metric) (ts : Time) :
  MinTimestamp (Filter m ignored) = Some ts ->
  (forall name metric,
     m !! name = Some metric -> (name ∉ ignored) ->
     (ts <= Timestamp metric)%Z) /\
  ((exists name metric,
      m !! name = Some metric /\ (name ∉ ignored) /\ Timestamp metric = ts) \/
   ((forall name, is_Some (m !! name) -> name ∈ ignored) /\ ts = zero)).
Proof.
  intros Hts.
  destruct (MinTimestamp_spec (Filter m ignored)) as (t & Ht & He & Hne).
  assert (t = ts) as -> by congruence. clear Ht.
  destruct (decide (Filter m ignored = ∅)) as [Hempty | Hsome].
  - assert (Hall : forall name, is_Some (m !! name) -> name ∈ ignored).
    { intros name [metric Hm].
      destruct (decide (name ∈ ignored)) as [|Hn]; [done|].
      assert (Hf : Filter m ignored !! name = Some metric)
        by by apply lookup_Filter.
      rewrite Hempty, lookup_empty in Hf. discriminate. }
    split.
    + intros name metric Hm Hn. exfalso. apply Hn, Hall. eauto.
    + right. split; [done | by apply He].
  - destruct (Hne Hsome) as ((name & metric & Hm & Heq) & Hlow).
    apply lookup_Filter in Hm as [Hm Hn]. split.
    + intros name' metric' Hm' Hn'. apply (Hlow name'). by apply lookup_Filter.
    + left. eauto.
Qed.

(** The highest timestamp of the metrics of the group. *)
Lemma MaxTimestamp_all (m : gmap string Metric) (newest : Time) :
  MaxTimestamp m = Some newest ->
  (forall name metric,
     m !! name = Some metric -> (Timestamp metric <= newest)%Z) /\
  ((exists name metric, m !! name = Some metric /\ Timestamp metric = newest) \/
   (m = ∅ /\ newest = zero)).
Proof.
  intros Hmax.
  destruct (MaxTimestamp_spec m) as (t & Ht & He & Hne).
  assert (t = newest) as -> by congruence. clear Ht.
  destruct (decide (m = ∅)) as [Hempty | Hsome].
  - split.
    + intros name metric Hm. rewrite Hempty, lookup_empty in Hm. discriminate.
    + right. split; [done | by apply He].
  - destruct (Hne Hsome) as (Hatt & Hup). split; [done | by left].
Qed.

(** C6. For a group with the label names job and instance, the timestamp
    that seeds a new state and that is passed to [Update] is the lowest
    timestamp of the metrics not named up, push_time_seconds or
    push_failure_time_seconds (the zero time when there is none), while
    the expiry test compares the highest timestamp of all the metrics of
    the group with the expiration time. *)
Theorem timestamps_used (clock : nat -> Time) (exp : Time)
    (g : MetricsGroup) (w : World) (rk : list string) :
  LabelNamesMatch g ["job"; "instance"] = true ->
  exists key ts newest w',
    Key g = Some key /\
    loop_body clock exp g (w, rk) = Some (w', rk ++ [key]) /\
    (forall name metric,
       Metrics g !! name = Some metric -> (name ∉ ignored) ->
       (ts <= Timestamp metric)%Z) /\
    ((exists name metric,
        Metrics g !! name = Some metric /\ (name ∉ ignored) /\
        Timestamp metric = ts) \/
     ((forall name, is_Some (Metrics g !! name) -> name ∈ ignored) /\
      ts = zero)) /\
    (forall name metric,
       Metrics g !! name = Some metric -> (Timestamp metric <= newest)%Z) /\
    ((exists name metric,
        Metrics g !! name = Some metric /\ Timestamp metric = newest) \/
     (Metrics g = ∅ /\ newest = zero)) /\
    match states w !! key with
    | None => states w' !! key = Some (NewGroupState ts)
    | Some st =>
        if Before newest exp then states w' !! key = None
        else states w' !! key = Some (Update (clock (reads w)) ts st).1
    end.
Proof.
  intros Hm.
  destruct (loop_body_cases clock exp g w rk Hm)
    as (key & ts & newest & Hkey & Hts & Hmax & w' & Hbody & Hw').
  exists key, ts, newest, w'.
  destruct (MinTimestamp_Filter _ _ Hts) as [Hlow Hmin].
  destruct (MaxTimestamp_all _ _ Hmax) as [Hup Hmost].
  do 6 (split; [done|]).
  destruct (states w !! key) as [st|].
  - destruct (Before newest exp).
    + subst w'. apply lookup_delete_eq.
    + destruct Hw' as [-> _]. apply lookup_insert_eq.
  - subst w'. apply lookup_insert_eq.
Qed.

(** A group with two relevant metrics at 100 and 99 and the ignored
    push_time_seconds at 101, seen for the first time: it is seeded with
    99, and 101 is the timestamp the expiry test would use. *)
Lemma timestamps_used_witness :
  let g := {| Labels := <["job" := "foo"]> (<["instance" := "bar"]> ∅);
              Metrics := <["baz" := mkMetric 100%Z]>
                           (<["qux" := mkMetric 99%Z]>
                              (<["push_time_seconds" := mkMetric 101%Z]> ∅)) |} in
  exists key ts newest w',
    Key g = Some key /\
    loop_body (fun _ => 200%Z) 150%Z g (start, []) = Some (w', [] ++ [key]) /\
    (forall name metric,
       Metrics g !! name = Some metric -> (name ∉ ignored) ->
       (ts <= Timestamp metric)%Z) /\
    ((exists name metric,
        Metrics g !! name = Some metric /\ (name ∉ ignored) /\
        Timestamp metric = ts) \/
     ((forall name, is_Some (Metrics g !! name) -> name ∈ ignored) /\
      ts = zero)) /\
    (forall name metric,
       Metrics g !! name = Some metric -> (Timestamp metric <= newest)%Z) /\
    ((exists name metric,
        Metrics g !! name = Some metric /\ Timestamp metric = newest) \/
     (Metrics g = ∅ /\ newest = zero)) /\
    match states start !! key with
    | None => states w' !! key = Some (NewGroupState ts)
    | Some st =>
        if Before newest 150%Z then states w' !! key = None
        else states w' !! key = Some (Update 200%Z ts st).1
    end.
Proof.
  intros g.
  apply (timestamps_used (fun _ => 200%Z) 150%Z g start []).
  reflexivity.
Defined.

(** ** Groups that are passed over, created, removed and expired *)

(** C9. A group whose set of label names is not exactly {job, instance} is
    passed over by the loop body without a panic: the map of states, the
    clock reads, the trace and [receivedKeys] are what they were. A group
    whose set of label names is exactly {job, instance} is not passed
    over: its key is appended to [receivedKeys]. *)
Theorem other_label_names_skipped (clock : nat -> Time) (exp : Time)
    (g : MetricsGroup) (w : World) (rk : list string) :
  (dom (Labels g) <> ({["job"; "instance"]} : gset string) ->
   loop_body clock exp g (w, rk) = Some (w, rk)) /\
  (dom (Labels g) = ({["job"; "instance"]} : gset string) ->
   exists key w',
     Key g = Some key /\
     loop_body clock exp g (w, rk) = Some (w', rk ++ [key])).
Proof.
  split.
  - intros Hdom. apply loop_body_skip.
    destruct (LabelNamesMatch g ["job"; "instance"]) eqn:Hm; [|done].
    by apply LabelNamesMatch_job_instance in Hm.
  - intros Hm%LabelNamesMatch_job_instance.
    destruct (loop_body_cases clock exp g w rk Hm)
      as (key & _ & _ & Hkey & _ & _ & w' & Hbody & _).
    eauto.
Qed.

(** Three labels, two of them job and instance: nothing happens. *)
Lemma other_label_names_skipped_witness :
  let g := {| Labels := <["job" := "foo"]>
                          (<["instance" := "bar"]> (<["zone" := "z"]> ∅));
              Metrics := <["baz" := mkMetric 100%Z]> ∅ |} in
  loop_body (fun _ => 200%Z) 150%Z g (start, []) = Some (start, []).
Proof.
  intros g.
  apply (other_label_names_skipped (fun _ => 200%Z) 150%Z g start []).
  intros Hdom. apply (f_equal size) in Hdom.
  rewrite size_dom, size_job_instance in Hdom.
  vm_compute in Hdom. discriminate.
Defined.

(** C8. When the key of a group with the label names job and instance is
    not in the map of states, the loop body inserts a new state with the
    lowest relevant timestamp, a zero timeout and [up = false]; it logs
    the addition, calls neither the client nor the clock, and evaluates no
    verdict. When no other group of the snapshot has the same key, this is
    the state of the key at the end of the tick, and the log line is the
    only event of the tick about the key. *)
Theorem new_group_seeded (clock : nat -> Time) (exp : Time)
    (g : MetricsGroup) (w : World) (rk : list string) (key : string) :
  LabelNamesMatch g ["job"; "instance"] = true ->
  Key g = Some key ->
  states w !! key = None ->
  exists ts,
    MinTimestamp (Filter (Metrics g) ignored) = Some ts /\
    loop_body clock exp g (w, rk) =
      Some ({| states := <[key := {| up := false; timestamp := ts;
                                     timeout := 0%Z |}]> (states w);
               reads := reads w;
               events := events w ++ [LogGroupAdded key] |},
            rk ++ [key]) /\
    forall (groupTTL : Duration) (pre post : list MetricsGroup),
      key ∉ received pre -> key ∉ received post ->
      exists w',
        tick clock groupTTL (pre ++ g :: post) w = Some w' /\
        states w' !! key =
          Some {| up := false; timestamp := ts; timeout := 0%Z |} /\
        exists evs, events w' = events w ++ evs /\
                    about key evs = [LogGroupAdded key].
Proof.
  intros Hm Hkey Hnew.
  assert (Hstep : forall exp' w1 rk1, states w1 !! key = None ->
            exists ts, MinTimestamp (Filter (Metrics g) ignored) = Some ts /\
              loop_body clock exp' g (w1, rk1) =
                Some ({| states := <[key := NewGroupState ts]> (states w1);
                         reads := reads w1;
                         events := events w1 ++ [LogGroupAdded key] |},
                      rk1 ++ [key])).
  { intros exp' w1 rk1 Hnone.
    destruct (loop_body_cases clock exp' g w1 rk1 Hm)
      as (key' & ts & newest & Hkey' & Hts & _ & w' & Hbody & Hw').
    assert (key' = key) as -> by congruence.
    rewrite Hnone in Hw'. subst w'. eauto. }
  destruct (Hstep exp w rk Hnew) as (ts & Hts & Hbody).
  exists ts. split; [done|]. split; [exact Hbody|].
  intros groupTTL pre post Hpre Hpost.
  destruct (tick_once clock groupTTL pre post g w key Hm Hkey Hpre Hpost)
    as (w1 & rk1 & w2 & w' & step_evs & evs
        & Hst1 & Hbody1 & Hev2 & Htick & Hst' & Hev' & Hab).
  rewrite Hnew in Hst1.
  destruct (Hstep (Add (clock (reads w)) (dur_neg groupTTL)) w1 rk1 Hst1)
    as (ts' & Hts' & Hbody1').
  assert (ts' = ts) as -> by congruence.
  rewrite Hbody1' in Hbody1. injection Hbody1 as <-.
  cbn in Hev2, Hst'. apply app_inv_head in Hev2. subst step_evs.
  exists w'. split; [done|]. split.
  - rewrite Hst'. apply lookup_insert_eq.
  - exists evs. split; [done|]. rewrite Hab. unfold about. cbn.
    by rewrite bool_decide_eq_true_2.
Qed.

(** A first group whose only relevant metric has the timestamp 100 gets
    the state (false, 100, 0) under its key. *)
Lemma new_group_seeded_witness :
  let g := {| Labels := <["job" := "foo"]> (<["instance" := "bar"]> ∅);
              Metrics := <["baz" := mkMetric 100%Z]>
                           (<["push_time_seconds" := mkMetric 101%Z]> ∅) |} in
  exists ts,
    MinTimestamp (Filter (Metrics g) ignored) = Some ts /\
    loop_body (fun _ => 200%Z) 150%Z g (start, []) =
      Some ({| states := <["job/foo/instance/bar" :=
                             {| up := false; timestamp := ts;
                                timeout := 0%Z |}]> (states start);
               reads := reads start;
               events := events start ++
                         [LogGroupAdded "job/foo/instance/bar"] |},
            [] ++ ["job/foo/instance/bar"]) /\
    forall (groupTTL : Duration) (pre post : list MetricsGroup),
      "job/foo/instance/bar" ∉ received pre ->
      "job/foo/instance/bar" ∉ received post ->
      exists w',
        tick (fun _ => 200%Z) groupTTL (pre ++ g :: post) start = Some w' /\
        states w' !! "job/foo/instance/bar" =
          Some {| up := false; timestamp := ts; timeout := 0%Z |} /\
        exists evs, events w' = events start ++ evs /\
                    about "job/foo/instance/bar" evs =
                    [LogGroupAdded "job/foo/instance/bar"].
Proof.
  intros g.
  apply (new_group_seeded (fun _ => 200%Z) 150%Z g start []
           "job/foo/instance/bar");
    reflexivity.
Defined.

(** The expiry test is made on tracked groups only. A group that is
    received for the first time is added, however old its metrics are:
    with a TTL of 10 and the clock at 100, a first group whose newest
    metric is at 5 is put in the map of states, and the client is not
    asked to delete it. *)
Lemma first_seen_stale_group_added :
  let g := {| Labels := <["job" := "foo"]> (<["instance" := "bar"]> ∅);
              Metrics := <["baz" := mkMetric 5%Z]> ∅ |} in
  let clock := fun _ : nat => 100%Z in
  let key := "job/foo/instance/bar" in
  received [g] = [key] /\
  MaxTimestamp (Metrics g) = Some 5%Z /\
  Before 5%Z (Add (clock 0) (dur_neg 10%Z)) = true /\
  tick clock 10%Z [g] start =
    Some {| states := {[key := NewGroupState 5%Z]};
            reads := 1;
            events := [LogGroupAdded key] |} /\
  ~ (exists w', tick clock 10%Z [g] start = Some w' /\
                states w' !! key = None /\
                about key (events w') = [LogGroupExpired key; ClientDelete key]).
Proof.
  intros g clock key.
  assert (Htick : tick clock 10%Z [g] start =
                  Some {| states := {[key := NewGroupState 5%Z]};
                          reads := 1;
                          events := [LogGroupAdded key] |})
    by by vm_compute.
  split; [by vm_compute|]. split; [by vm_compute|]. split; [by vm_compute|].
  split; [exact Htick|].
  intros (w' & Hw' & Hnone & _). rewrite Htick in Hw'.
  injection Hw' as <-. vm_compute in Hnone. discriminate.
Qed.

(** C5. For a key that is in the map of states:
    - when no group of the snapshot with the label names job and instance
      has the key, the tick removes it from the map, and the only event
      about it is the log line of the removal: the client is not called;
    - when the loop body meets a group with this key whose highest metric
      timestamp (over all its metrics) is before the expiration time, it
      removes the key from the map, logs the expiry and calls
      [client.Delete] once, and it reads no clock: neither [Update] nor
      [IsUp] is called;
    - when moreover no other group of the snapshot has the key, the key is
      not in the map at the end of the tick, and the events of the tick
      about it are the log line and the one call of [client.Delete]. *)
Theorem tracked_group_removed_or_expired (clock : nat -> Time)
    (groupTTL : Duration) (w : World) (key : string) (st : GroupState) :
  states w !! key = Some st ->
  (forall groups,
     key ∉ received groups ->
     exists w',
       tick clock groupTTL groups w = Some w' /\
       states w' !! key = None /\
       exists evs, events w' = events w ++ evs /\
                   about key evs = [LogGroupRemoved key]) /\
  (forall g newest exp rk,
     LabelNamesMatch g ["job"; "instance"] = true ->
     Key g = Some key ->
     MaxTimestamp (Metrics g) = Some newest ->
     Before newest exp = true ->
     loop_body clock exp g (w, rk) =
       Some ({| states := delete key (states w);
                reads := reads w;
                events := events w ++
                          [LogGroupExpired key; ClientDelete key] |},
             rk ++ [key])) /\
  (forall pre g post newest,
     LabelNamesMatch g ["job"; "instance"] = true ->
     Key g = Some key ->
     MaxTimestamp (Metrics g) = Some newest ->
     Before newest (Add (clock (reads w)) (dur_neg groupTTL)) = true ->
     key ∉ received pre -> key ∉ received post ->
     exists w',
       tick clock groupTTL (pre ++ g :: post) w = Some w' /\
       states w' !! key = None /\
       exists evs, events w' = events w ++ evs /\
                   about key evs = [LogGroupExpired key; ClientDelete key]).
Proof.
  intros Hst.
  assert (Hstep : forall g newest exp w1 rk1 st1,
            states w1 !! key = Some st1 ->
            LabelNamesMatch g ["job"; "instance"] = true ->
            Key g = Some key ->
            MaxTimestamp (Metrics g) = Some newest ->
            Before newest exp = true ->
            loop_body clock exp g (w1, rk1) =
              Some ({| states := delete key (states w1);
                       reads := reads w1;
                       events := events w1 ++
                                 [LogGroupExpired key; ClientDelete key] |},
                    rk1 ++ [key])).
  { intros g newest exp w1 rk1 st1 Hst1 Hm Hkey Hmax Hold.
    destruct (loop_body_cases clock exp g w1 rk1 Hm)
      as (key' & ts & newest' & Hkey' & _ & Hmax' & w' & Hbody & Hw').
    assert (key' = key) as -> by congruence.
    assert (newest' = newest) as -> by congruence.
    rewrite Hst1, Hold in Hw'. by subst w'. }
  split; [|split].
  - intros groups Hkey. by apply (tick_unreceived clock groupTTL groups w key st).
  - intros g newest exp rk. by apply (Hstep g newest exp w rk st).
  - intros pre g post newest Hm Hkey Hmax Hold Hpre Hpost.
    destruct (tick_once clock groupTTL pre post g w key Hm Hkey Hpre Hpost)
      as (w1 & rk1 & w2 & w' & step_evs & evs
          & Hst1 & Hbody1 & Hev2 & Htick & Hst' & Hev' & Hab).
    rewrite Hst in Hst1.
    rewrite (Hstep g newest _ w1 rk1 st Hst1 Hm Hkey Hmax Hold) in Hbody1.
    injection Hbody1 as <-.
    cbn in Hev2, Hst'. apply app_inv_head in Hev2. subst step_evs.
    exists w'. split; [done|]. split.
    + rewrite Hst'. apply lookup_delete_eq.
    + exists evs. split; [done|]. rewrite Hab. unfold about. cbn.
      by rewrite bool_decide_eq_true_2.
Qed.

(** With a TTL of 10 and the clock at 100, a tracked group is dropped
    silently by a tick on the empty snapshot, and expired by a tick on a
    snapshot in which its newest metric is at 5. *)
Lemma tracked_group_removed_or_expired_witness :
  let g := {| Labels := <["job" := "foo"]> (<["instance" := "bar"]> ∅);
              Metrics := <["baz" := mkMetric 5%Z]> ∅ |} in
  let clock := fun _ : nat => 100%Z in
  let key := "job/foo/instance/bar" in
  let w := {| states := {[key := NewGroupState 4%Z]};
              reads := 0; events := [] |} in
  (exists w',
     tick clock 10%Z [] w = Some w' /\
     states w' !! key = None /\
     exists evs, events w' = events w ++ evs /\
                 about key evs = [LogGroupRemoved key]) /\
  (exists w',
     tick clock 10%Z ([] ++ g :: []) w = Some w' /\
     states w' !! key = None /\
     exists evs, events w' = events w ++ evs /\
                 about key evs = [LogGroupExpired key; ClientDelete key]).
Proof.
  intros g clock key w.
  destruct (tracked_group_removed_or_expired clock 10%Z w key
              (NewGroupState 4%Z) eq_refl) as (Hgone & _ & Hexp).
  split.
  - apply (Hgone []). apply not_elem_of_nil.
  - apply (Hexp [] g [] 5%Z);
      [reflexivity | reflexivity | reflexivity | reflexivity
      | apply not_elem_of_nil | apply not_elem_of_nil].
Defined.

(** ** Groups without a relevant metric *)

Lemma Update_zero_timestamp (now t : Time) (gs : GroupState) :
  IsZero (timestamp gs) = true ->
  timeout (Update now t gs).1 = timeout gs.
Proof.
  intros Hz. destruct (Update_fields now t gs) as (_ & -> & _).
  by rewrite Hz, andb_false_r.
Qed.

Lemma observe_zero (calls : list (Time * Time)) (gs : GroupState) :
  Forall (fun call => call.2 = zero) calls ->
  timestamp gs = zero -> timeout gs = 0%Z -> up gs = false ->
  timestamp (observe gs calls) = zero /\
  timeout (observe gs calls) = 0%Z /\
  up (observe gs calls) = false.
Proof.
  intros Hall. revert gs.
  induction Hall as [|[now t] calls Ht _ IH]; intros gs Hts Hto Hup; [done|].
  cbn in Ht. subst t. unfold observe in *. cbn [fold_left fst snd].
  destruct (Update_fields now zero gs) as (Hts' & Hto' & Hup' & _).
  cbv zeta in *. rewrite Hts in Hto'.
  change (After zero zero && negb (IsZero zero)) with false in Hto'.
  apply IH; [done | congruence |].
  rewrite Hup'. unfold IsUp. by rewrite Hts'.
Qed.

(** C10. On the empty map, [MinTimestamp] and [MaxTimestamp] return the
    zero time and do not panic. So a group all of whose metrics are
    removed by the filter is seeded with the zero time when its key is
    new, and updated with the zero time when its key is tracked and not
    expired. A state with the zero time is reported down at every instant
    and keeps its timeout at the next [Update], whatever the timestamp;
    and a state seeded with the zero time and updated with the zero time
    any number of times has the zero time, a zero timeout and is down. *)
Theorem zero_timestamp_is_unset :
  MinTimestamp ∅ = Some zero /\
  MaxTimestamp ∅ = Some zero /\
  (forall m : gmap string Metric,
     (forall name, is_Some (m !! name) -> name ∈ ignored) ->
     MinTimestamp (Filter m ignored) = Some zero) /\
  (forall (clock : nat -> Time) exp g w rk,
     LabelNamesMatch g ["job"; "instance"] = true ->
     (forall name, is_Some (Metrics g !! name) -> name ∈ ignored) ->
     exists key newest w',
       Key g = Some key /\
       MaxTimestamp (Metrics g) = Some newest /\
       loop_body clock exp g (w, rk) = Some (w', rk ++ [key]) /\
       match states w !! key with
       | None => states w' !! key = Some (NewGroupState zero)
       | Some st =>
           if Before newest exp then states w' !! key = None
           else states w' !! key = Some (Update (clock (reads w)) zero st).1
       end) /\
  (forall gs : GroupState,
     IsZero (timestamp gs) = true ->
     (forall now, IsUp now gs = false) /\
     (forall now t, timeout (Update now t gs).1 = timeout gs)) /\
  (forall calls : list (Time * Time),
     Forall (fun call => call.2 = zero) calls ->
     let gs := observe (NewGroupState zero) calls in
     timestamp gs = zero /\ timeout gs = 0%Z /\ up gs = false /\
     forall now, IsUp now gs = false).
Proof.
  assert (Hfilter : forall m : gmap string Metric,
            (forall name, is_Some (m !! name) -> name ∈ ignored) ->
            MinTimestamp (Filter m ignored) = Some zero).
  { intros m Hall.
    destruct (MinTimestamp_spec (Filter m ignored)) as (t & Ht & He & _).
    rewrite Ht, He; [done|].
    apply map_eq. intros name. rewrite lookup_empty.
    destruct (Filter m ignored !! name) as [metric|] eqn:Hf; [|done].
    apply lookup_Filter in Hf as [Hm Hn]. exfalso. apply Hn, Hall. eauto. }
  split; [done|]. split; [done|]. split; [exact Hfilter|].
  split; [|split].
  - intros clock exp g w rk Hm Hall.
    destruct (loop_body_cases clock exp g w rk Hm)
      as (key & ts & newest & Hkey & Hts & Hmax & w' & Hbody & Hw').
    rewrite (Hfilter _ Hall) in Hts. injection Hts as <-.
    exists key, newest, w'. do 3 (split; [done|]).
    destruct (states w !! key) as [st|].
    + destruct (Before newest exp).
      * subst w'. apply lookup_delete_eq.
      * destruct Hw' as [-> _]. apply lookup_insert_eq.
    + subst w'. apply lookup_insert_eq.
  - intros gs Hz. split.
    + intros now. unfold IsUp. by rewrite Hz.
    + intros now t. by apply Update_zero_timestamp.
  - intros calls Hall gs.
    destruct (observe_zero calls (NewGroupState zero) Hall)
      as (Hts & Hto & Hup); [done..|].
    fold gs in Hts, Hto, Hup. do 3 (split; [done|]).
    intros now. unfold IsUp. by rewrite Hts.
Qed.

(** A state seeded with the zero time and updated three times with the
    zero time, at the instants 10, 20 and 30. *)
Lemma zero_timestamp_is_unset_witness :
  let gs := observe (NewGroupState zero)
                    [(10%Z, zero); (20%Z, zero); (30%Z, zero)] in
  timestamp gs = zero /\ timeout gs = 0%Z /\ up gs = false /\
  forall now, IsUp now gs = false.
Proof.
  destruct zero_timestamp_is_unset as (_ & _ & _ & _ & _ & H).
  apply H. repeat constructor.
Defined.


(** * Further properties *)

(** ** The timeout over a sequence of updates *)

(** [delta + delta/2] on durations is never zero for a positive [delta],
    even when it overflows. *)
Lemma timeout_nonzero (delta : Duration) :
  (0 < delta <= maxDuration)%Z ->
  dur_add delta (dur_div delta 2%Z) <> 0%Z.
Proof.
  unfold maxDuration. intros Hd. unfold dur_add, dur_div.
  rewrite Z.quot_div_nonneg by lia.
  pose proof (Z.div_mod delta 2 ltac:(lia)) as Hdm.
  pose proof (Z.mod_pos_bound delta 2 ltac:(lia)) as Hm.
  rewrite (wrap64_id (delta / 2)) by (unfold minDuration, maxDuration; lia).
  unfold wrap64. intros Hz.
  assert (Hmod : ((delta + delta / 2 + 2 ^ 63) mod 2 ^ 64 = 2 ^ 63)%Z) by lia.
  destruct (Z_lt_le_dec (delta + delta / 2) (2 ^ 63)) as [Hlt | Hge].
  - rewrite Z.mod_small in Hmod by lia. lia.
  - replace (delta + delta / 2 + 2 ^ 63)%Z
      with (delta + delta / 2 - 2 ^ 63 + 1 * 2 ^ 64)%Z in Hmod by lia.
    rewrite Z.mod_add in Hmod by lia.
    rewrite Z.mod_small in Hmod by lia. lia.
Qed.

Lemma Sub_After_range (t u : Time) :
  After t u = true -> (0 < Sub t u <= maxDuration)%Z.
Proof.
  unfold After, Sub, minDuration, maxDuration. intros Hlt%Z.ltb_lt.
  destruct (Z.ltb_spec (t - u) (- 2 ^ 63)); [lia|].
  destruct (Z.ltb_spec (2 ^ 63 - 1) (t - u)); lia.
Qed.

Lemma observe_snoc (gs : GroupState) (calls : list (Time * Time))
    (now t : Time) :
  observe gs (calls ++ [(now, t)]) = (Update now t (observe gs calls)).1.
Proof. unfold observe. by rewrite fold_left_app. Qed.

(** X1. Once a state has a timeout other than zero, no sequence of calls
    of [Update] brings it back to zero; and a call with a timestamp after
    a stored timestamp that is not the zero time leaves a timeout other
    than zero, also when [delta + delta/2] overflows. *)
Theorem timeout_never_reset :
  (forall now t gs,
     After t (timestamp gs) = true -> IsZero (timestamp gs) = false ->
     timeout (Update now t gs).1 <> 0%Z) /\
  (forall gs calls,
     timeout gs <> 0%Z -> timeout (observe gs calls) <> 0%Z).
Proof.
  assert (Hstep : forall now t gs,
            timeout gs <> 0%Z \/
            (After t (timestamp gs) = true /\ IsZero (timestamp gs) = false) ->
            timeout (Update now t gs).1 <> 0%Z).
  { intros now t gs H.
    destruct (Update_fields now t gs) as (_ & -> & _).
    destruct (After t (timestamp gs)) eqn:Ha;
      destruct (IsZero (timestamp gs)) eqn:Hz; cbn [andb negb];
      try (destruct H as [H | [? ?]]; [done | discriminate]).
    by apply timeout_nonzero, Sub_After_range. }
  split.
  - intros now t gs Ha Hz. apply Hstep. by right.
  - intros gs calls Hne.
    induction calls as [|[now t] calls IH] using rev_ind; [done|].
    rewrite observe_snoc. apply Hstep. by left.
Qed.

(** A new state seen at 10 and at 30 has a timeout, and keeps one through
    a late timestamp and a zero timestamp. *)
Lemma timeout_never_reset_witness :
  let gs := (Update 31%Z 30%Z (NewGroupState 10%Z)).1 in
  timeout gs <> 0%Z /\
  timeout (observe gs [(40%Z, 20%Z); (50%Z, zero)]) <> 0%Z.
Proof.
  intros gs. destruct timeout_never_reset as [Hone Hmany].
  assert (Hgs : timeout gs <> 0%Z) by (apply Hone; reflexivity).
  split; [exact Hgs | by apply Hmany].
Defined.

(** X2. Only the last two timestamps matter: when the last timestamp
    passed is after the one before it, and that one is not the zero time,
    the state is given by these two timestamps and the clock reading of
    the last call, whatever the state was before. *)
Theorem observe_last_two (gs : GroupState) (calls : list (Time * Time))
    (now1 t1 now2 t2 : Time) :
  t1 <> zero -> (t1 < t2)%Z ->
  let delta := Sub t2 t1 in
  let timeout' := dur_add delta (dur_div delta 2%Z) in
  observe gs (calls ++ [(now1, t1); (now2, t2)]) =
    {| up := IsUp now2 {| up := false; timestamp := t2; timeout := timeout' |};
       timestamp := t2;
       timeout := timeout' |}.
Proof.
  intros Hnz Hlt delta timeout'.
  change [(now1, t1); (now2, t2)] with ([(now1, t1)] ++ [(now2, t2)]).
  rewrite app_assoc, observe_snoc, observe_snoc.
  set (gs0 := observe gs calls).
  destruct (Update_fields now1 t1 gs0) as (Hts1 & _).
  set (gs1 := (Update now1 t1 gs0).1) in *. cbv zeta in Hts1.
  destruct (Update_fields now2 t2 gs1) as (Hts & Hto & Hup & _).
  cbv zeta in *.
  rewrite Hts1 in Hto.
  assert (After t2 t1 = true) as Ha by (by apply Z.ltb_lt).
  assert (IsZero t1 = false) as Hz by (by apply Z.eqb_neq).
  rewrite Ha, Hz in Hto. cbn [andb negb] in Hto.
  destruct (Update now2 t2 gs1).1 as [u ts to] eqn:Heq.
  cbn in Hts, Hto, Hup. subst ts to. f_equal. rewrite Hup.
  by unfold IsUp.
Qed.

(** Whatever came before, timestamps 100 and 160 read at 161 give a state
    that is up, with the timestamp 160 and the timeout 90. *)
Lemma observe_last_two_witness :
  observe {| up := true; timestamp := 7%Z; timeout := 3%Z |}
          ([(50%Z, 40%Z)] ++ [(101%Z, 100%Z); (161%Z, 160%Z)]) =
    {| up := true; timestamp := 160%Z; timeout := 90%Z |}.
Proof.
  apply (observe_last_two {| up := true; timestamp := 7%Z; timeout := 3%Z |}
           [(50%Z, 40%Z)] 101%Z 100%Z 161%Z 160%Z).
  - discriminate.
  - reflexivity.
Defined.

(** ** Metric timestamps: visiting order and bounds *)

(** X3. The lowest and the highest timestamp do not depend on the order in
    which the metrics are visited: on any rearrangement of the timestamps
    of a non-empty map, [slices.MinFunc] and [slices.MaxFunc] return what
    [MinTimestamp] and [MaxTimestamp] return. *)
Theorem extrema_order_independent (m : gmap string Metric)
    (order : list Time) :
  order ≡ₚ timestamps m -> m <> ∅ ->
  slices.MinFunc order = MinTimestamp m /\
  slices.MaxFunc order = MaxTimestamp m.
Proof.
  intros Hperm Hne.
  assert (Hnil : timestamps m <> []) by by rewrite timestamps_nil.
  assert (Hnil' : order <> []).
  { intros ->. by apply Permutation_nil_l in Hperm. }
  unfold MinTimestamp, MaxTimestamp. rewrite size_eqb_0.
  rewrite bool_decide_eq_false_2 by done. split.
  - destruct (MinFunc_spec order Hnil') as (r & -> & Hin & Hlow).
    destruct (MinFunc_spec (timestamps m) Hnil) as (r' & -> & Hin' & Hlow').
    f_equal. apply Z.le_antisymm.
    + apply Hlow. by rewrite Hperm.
    + apply Hlow'. by rewrite <- Hperm.
  - destruct (MaxFunc_spec order Hnil') as (r & -> & Hin & Hup).
    destruct (MaxFunc_spec (timestamps m) Hnil) as (r' & -> & Hin' & Hup').
    f_equal. apply Z.le_antisymm.
    + apply Hup'. by rewrite <- Hperm.
    + apply Hup. by rewrite Hperm.
Qed.

(** The timestamps of the test group, visited in another order. *)
Lemma extrema_order_independent_witness :
  slices.MinFunc [test_later; test_earlier; test_now]
    = MinTimestamp (Metrics test_group) /\
  slices.MaxFunc [test_later; test_earlier; test_now]
    = MaxTimestamp (Metrics test_group).
Proof.
  apply (extrema_order_independent (Metrics test_group)
           [test_later; test_earlier; test_now]).
  - assert (timestamps (Metrics test_group)
            = [test_now; test_earlier; test_later]) as -> by by vm_compute.
    etrans; [apply perm_swap|]. etrans; [apply perm_skip, perm_swap|].
    apply perm_swap.
  - intros Heq. apply (f_equal (fun m => m !! "baz")) in Heq.
    vm_compute in Heq. discriminate.
Defined.

(** X4. The lowest timestamp of a map is at most its highest; and as long
    as the filter leaves a metric, the lowest and highest timestamps of
    the filtered map lie between those of the whole map. For a group this
    says that the timestamp passed to [Update] is not after the timestamp
    of the expiry test when a relevant metric exists. *)
Theorem timestamps_bounds (m : gmap string Metric) (names : list string)
    (lo hi flo fhi : Time) :
  MinTimestamp m = Some lo -> MaxTimestamp m = Some hi ->
  MinTimestamp (Filter m names) = Some flo ->
  MaxTimestamp (Filter m names) = Some fhi ->
  (lo <= hi)%Z /\
  (Filter m names <> ∅ -> (lo <= flo)%Z /\ (flo <= fhi)%Z /\ (fhi <= hi)%Z).
Proof.
  intros Hlo Hhi Hflo Hfhi.
  destruct (MinTimestamp_spec m) as (t & Ht & He & Hn).
  assert (t = lo) as -> by congruence. clear Ht.
  destruct (MaxTimestamp_spec m) as (t & Ht & He' & Hn').
  assert (t = hi) as -> by congruence. clear Ht.
  destruct (MinTimestamp_spec (Filter m names)) as (t & Ht & _ & Hfn).
  assert (t = flo) as -> by congruence. clear Ht.
  destruct (MaxTimestamp_spec (Filter m names)) as (t & Ht & _ & Hfn').
  assert (t = fhi) as -> by congruence. clear Ht.
  split.
  - destruct (decide (m = ∅)) as [Hm | Hm].
    + rewrite (He Hm), (He' Hm). done.
    + destruct (Hn Hm) as ((name & metric & Hl & <-) & _).
      destruct (Hn' Hm) as (_ & Hup). by apply (Hup name).
  - intros Hf.
    destruct (Hfn Hf) as ((n1 & m1 & Hl1 & <-) & Hflow).
    destruct (Hfn' Hf) as ((n2 & m2 & Hl2 & <-) & Hfup).
    assert (Hm : m <> ∅).
    { intros ->. apply lookup_Filter in Hl1 as [Hl1 _].
      by rewrite lookup_empty in Hl1. }
    destruct (Hn Hm) as (_ & Hlow). destruct (Hn' Hm) as (_ & Hup).
    pose proof Hl1 as [Hl1' _]%lookup_Filter.
    pose proof Hl2 as [Hl2' _]%lookup_Filter.
    split; [by apply (Hlow n1)|]. split; [by apply (Hflow n2) | by apply (Hup n2)].
Qed.

(** The test group and the filter of [main]: 100 is between 99 and 101. *)
Lemma timestamps_bounds_witness :
  (test_earlier <= test_later)%Z /\
  (Filter (Metrics test_group) ignored <> ∅ ->
   (test_earlier <= test_now)%Z /\ (test_now <= test_now)%Z /\
   (test_now <= test_later)%Z).
Proof.
  apply (timestamps_bounds (Metrics test_group) ignored); by vm_compute.
Defined.

(** ** The filter *)

(** X5. [Filter] removes exactly the listed names and keeps the other
    metrics as they are; filtering twice is filtering by both lists, and
    filtering by no name changes nothing. *)
Theorem Filter_algebra (m : gmap string Metric) (names names' : list string) :
  dom (Filter m names) = dom m ∖ (list_to_set names : gset string) /\
  Filter m names ⊆ m /\
  Filter (Filter m names) names' = Filter m (names ++ names') /\
  Filter m [] = m.
Proof.
  split; [|split; [|split]].
  - apply set_eq. intros name.
    rewrite elem_of_difference, !elem_of_dom, elem_of_list_to_set.
    unfold is_Some. setoid_rewrite lookup_Filter. split.
    + intros (metric & Hl & Hn). eauto.
    + intros [[metric Hl] Hn]. eauto.
  - apply map_subseteq_spec. intros name metric Hl.
    by apply lookup_Filter in Hl as [Hl _].
  - apply map_eq. intros name. apply option_eq. intros metric.
    rewrite !lookup_Filter, elem_of_app. tauto.
  - apply map_eq. intros name. apply option_eq. intros metric.
    rewrite lookup_Filter. split; [by intros [? _]|].
    intros Hl. split; [done | apply not_elem_of_nil].
Qed.

(** ** Label names and keys of tracked groups *)

Lemma names_present_Forall (labels : gmap string string) (names : list string) :
  names_present labels names = true <->
  Forall (fun name => is_Some (labels !! name)) names.
Proof.
  induction names as [|name names IH]; cbn.
  - split; [constructor | done].
  - rewrite Forall_cons. destruct (labels !! name) as [value|].
    + rewrite IH. split; [by eauto | by intros [_ ?]].
    + split; [done | by intros [[? [=]] _]].
Qed.

(** X6. For names without repetition, [LabelNamesMatch] holds exactly when
    the set of label names of the group is the set of the names given; and
    the order of the names given never matters. *)
Theorem LabelNamesMatch_set (g : MetricsGroup) (names names' : list string) :
  (NoDup names ->
   (LabelNamesMatch g names = true <->
    dom (Labels g) = (list_to_set names : gset string))) /\
  (names ≡ₚ names' -> LabelNamesMatch g names = LabelNamesMatch g names').
Proof.
  split.
  - intros Hnd. unfold LabelNamesMatch. split.
    + destruct (names_present (Labels g) names) eqn:Hp; [|done].
      apply names_present_Forall in Hp. intros Hsize%Nat.eqb_eq.
      symmetry. apply set_subseteq_size_eq.
      * intros name Hin%elem_of_list_to_set. apply elem_of_dom.
        by apply (proj1 (Forall_forall _ _) Hp).
      * by rewrite size_dom, Hsize, size_list_to_set.
    + intros Hdom.
      assert (Hp : names_present (Labels g) names = true).
      { apply names_present_Forall, Forall_forall. intros name Hin.
        apply elem_of_dom. rewrite Hdom. by apply elem_of_list_to_set. }
      rewrite Hp. apply Nat.eqb_eq.
      by rewrite <- size_dom, Hdom, size_list_to_set.
  - intros Hperm. unfold LabelNamesMatch.
    assert (Hp : names_present (Labels g) names
                 = names_present (Labels g) names').
    { apply Bool.eq_iff_eq_true. rewrite !names_present_Forall.
      by rewrite Hperm. }
    by rewrite Hp, (Permutation_length Hperm).
Qed.

(** The test group has exactly the label names instance and job, given
    here in the order of the test. *)
Lemma LabelNamesMatch_set_witness :
  dom (Labels test_group) = (list_to_set ["instance"; "job"] : gset string) /\
  LabelNamesMatch test_group ["job"; "instance"]
    = LabelNamesMatch test_group ["instance"; "job"].
Proof.
  destruct (LabelNamesMatch_set test_group ["instance"; "job"]
              ["job"; "instance"]) as [Hset Hperm].
  split.
  - apply Hset; [|reflexivity].
    apply NoDup_cons. split; [|apply NoDup_singleton].
    intros Hin%list_elem_of_singleton. discriminate.
  - symmetry. apply Hperm, perm_swap.
Defined.

Lemma Key_range_job_instance (g : MetricsGroup) (order : list string)
    (job inst : string) :
  LabelNamesMatch g ["job"; "instance"] = true ->
  Labels g !! "job" = Some job ->
  Labels g !! "instance" = Some inst ->
  order ≡ₚ range_names (Labels g) ->
  Key_range order g =
    Some (String.append "job/"
            (String.append job (String.append "/instance/" inst))).
Proof.
  intros Hdom%LabelNamesMatch_job_instance Hjob Hinst Hperm.
  destruct (Key_range_shape order g job Hperm Hjob)
    as (pairs & _ & Hnd & Hin & ->).
  assert (Hpairs : pairs ≡ₚ [("instance", inst)]).
  { apply NoDup_Permutation.
    - by apply (NoDup_fmap_1 fst).
    - apply NoDup_singleton.
    - intros [name value]. rewrite Hin, list_elem_of_singleton. split.
      + intros [Hne Hl].
        assert (Hname : name ∈ dom (Labels g)) by (apply elem_of_dom; eauto).
        rewrite Hdom in Hname.
        apply elem_of_union in Hname as [Hn | Hn];
          apply elem_of_singleton in Hn; subst name; [done|].
        congruence.
      + intros [= -> ->]. done. }
  apply Permutation_singleton_r in Hpairs as ->. reflexivity.
Qed.

(** X7. The key of a group with exactly the labels job and instance is
    job/<job value>/instance/<instance value>, whatever the order in which
    the labels are visited; it is the one key the loop appends to
    [receivedKeys] for the group. *)
Theorem Key_job_instance (g : MetricsGroup) (order : list string)
    (job inst : string) :
  LabelNamesMatch g ["job"; "instance"] = true ->
  Labels g !! "job" = Some job ->
  Labels g !! "instance" = Some inst ->
  order ≡ₚ range_names (Labels g) ->
  let key := String.append "job/"
               (String.append job (String.append "/instance/" inst)) in
  Key_range order g = Some key /\ received [g] = [key].
Proof.
  intros Hm Hjob Hinst Hperm key. split.
  - by apply Key_range_job_instance.
  - apply received_one; [done|].
    by apply (Key_range_job_instance g (range_names (Labels g)) job inst).
Qed.

Lemma Key_job_instance_witness :
  Key_range ["job"; "instance"] test_group = Some "job/foo/instance/bar" /\
  received [test_group] = ["job/foo/instance/bar"].
Proof.
  apply (Key_job_instance test_group ["job"; "instance"] "foo" "bar").
  - reflexivity.
  - reflexivity.
  - reflexivity.
  - vm_compute. apply perm_swap.
Defined.

(** X8. Two groups with exactly the labels job and instance, whose values
    contain no "/", have the same key only when they have the same
    labels: for the groups the loop tracks, nothing but a "/" in a value
    makes keys collide. *)
Theorem Key_job_instance_injective (g1 g2 : MetricsGroup) :
  LabelNamesMatch g1 ["job"; "instance"] = true ->
  LabelNamesMatch g2 ["job"; "instance"] = true ->
  (forall name value,
     Labels g1 !! name = Some value -> no_slash value = true) ->
  (forall name value,
     Labels g2 !! name = Some value -> no_slash value = true) ->
  Key g1 = Key g2 ->
  Labels g1 = Labels g2.
Proof.
  assert (Hfree : forall g,
            LabelNamesMatch g ["job"; "instance"] = true ->
            (forall name value,
               Labels g !! name = Some value -> no_slash value = true) ->
            slash_free g = true).
  { intros g Hdom%LabelNamesMatch_job_instance Hval.
    unfold slash_free. apply forallb_forall. intros [name value] Hin.
    apply list_elem_of_In, elem_of_map_to_list in Hin.
    apply andb_true_iff. split; [|by apply (Hval name)].
    assert (Hname : name ∈ dom (Labels g)) by (apply elem_of_dom; eauto).
    rewrite Hdom in Hname.
    apply elem_of_union in Hname as [Hn | Hn];
      apply elem_of_singleton in Hn; by subst name. }
  intros Hm1 Hm2 Hv1 Hv2 Hkey.
  apply (Key_range_inj g1 g2 (range_names (Labels g1))
           (range_names (Labels g2))); try done.
  - by apply LabelNamesMatch_job.
  - by apply LabelNamesMatch_job.
  - by apply Hfree.
  - by apply Hfree.
Qed.

(** The test group and a group with the same labels, inserted in the
    other order, and no metrics. *)
Lemma Key_job_instance_injective_witness :
  let g2 := {| Labels := <["instance" := "bar"]> (<["job" := "foo"]> ∅);
               Metrics := ∅ |} in
  Labels test_group = Labels g2.
Proof.
  intros g2.
  assert (Hval : forall name value,
            (name, value) ∈ [("instance", "bar"); ("job", "foo")] ->
            no_slash value = true).
  { intros name value Hin.
    apply elem_of_cons in Hin as [[= -> ->] | Hin]; [reflexivity|].
    apply elem_of_cons in Hin as [[= -> ->] | Hin]; [reflexivity|].
    by apply elem_of_nil in Hin. }
  apply (Key_job_instance_injective test_group g2).
  - reflexivity.
  - reflexivity.
  - intros name value Hl. apply (Hval name).
    by apply elem_of_map_to_list in Hl.
  - intros name value Hl. apply (Hval name).
    by apply elem_of_map_to_list in Hl.
  - reflexivity.
Defined.

(** ** What a tick leaves and what it asks of the client *)

Lemma Key_range_prefix (order : list string) (g : MetricsGroup) (key : string) :
  Key_range order g = Some key -> strings.HasPrefix key "job/" = true.
Proof.
  destruct (Labels g !! "job") as [job|] eqn:Hjob.
  - rewrite (Key_range_pairs order g job Hjob). intros Heq.
    set (rest := pair_parts _) in Heq.
    assert (Hkey : key = strings.Join ("job" :: job :: rest) "/")
      by congruence.
    rewrite Hkey, Join_cons2. unfold strings.HasPrefix.
    destruct (strings.Join (job :: rest) "/"); reflexivity.
  - unfold Key_range. by rewrite Hjob.
Qed.

Lemma received_prefix (groups : list MetricsGroup) (key : string) :
  key ∈ received groups -> strings.HasPrefix key "job/" = true.
Proof.
  unfold received. rewrite list_elem_of_omap. intros (g & _ & Hg).
  destruct (LabelNamesMatch g ["job"; "instance"]); [|done].
  by apply Key_range_prefix in Hg.
Qed.

(** X10. After a tick, every key in the map of states is the key of a
    group of the snapshot that has the label names job and instance:
    nothing else stays tracked. *)
Theorem tick_tracks_only_received (clock : nat -> Time) (groupTTL : Duration)
    (groups : list MetricsGroup) (w : World) :
  exists w',
    tick clock groupTTL groups w = Some w' /\
    forall key, is_Some (states w' !! key) -> key ∈ received groups.
Proof.
  unfold tick.
  destruct (range_groups_frame clock
              (Add (clock (reads w)) (dur_neg groupTTL)) groups
              {| states := states w; reads := S (reads w);
                 events := events w |} [])
    as (w1 & -> & _).
  cbn [app].
  destruct (sweep_fold (received groups) (range_names (states w1)) w1)
    as (Hgone & Hkept & _).
  eexists. split; [reflexivity|]. intros key Hsome.
  destruct (decide (key ∈ received groups)) as [|Hout]; [done|]. exfalso.
  unfold sweep in Hsome.
  destruct (decide (key ∈ range_names (states w1))) as [Hin | Hnin].
  - rewrite Hgone in Hsome by done. by destruct Hsome.
  - rewrite Hkept in Hsome by (by left).
    by apply elem_of_range_names in Hsome.
Qed.

(** X11. Every call of the client in a tick, [Delete] or [Upset], is for
    the key of a group of the snapshot with the label names job and
    instance, and the key starts with "job/"; the removal of a key that
    was not received calls nothing. *)
Theorem client_calls_of_tick (clock : nat -> Time) (groupTTL : Duration)
    (groups : list MetricsGroup) (w : World) :
  exists w' evs,
    tick clock groupTTL groups w = Some w' /\
    events w' = events w ++ evs /\
    forall e key,
      e ∈ evs ->
      e = ClientDelete key \/ (exists up, e = ClientUpset key up) ->
      key ∈ received groups /\ strings.HasPrefix key "job/" = true.
Proof.
  unfold tick.
  destruct (range_groups_frame clock
              (Add (clock (reads w)) (dur_neg groupTTL)) groups
              {| states := states w; reads := S (reads w);
                 events := events w |} [])
    as (w1 & -> & _ & evs1 & Hev1 & Hab1).
  cbn [app] in *. cbn [events] in Hev1.
  destruct (sweep_fold (received groups) (range_names (states w1)) w1)
    as (_ & _ & _ & Hev).
  eexists. eexists. split; [reflexivity|]. split.
  { unfold sweep. rewrite Hev, Hev1, <- app_assoc. reflexivity. }
  intros e key Hin Hcall.
  assert (Hkey : key ∈ received groups).
  { apply elem_of_app in Hin as [Hin | Hin].
    - apply (proj1 (Forall_forall _ _) Hab1) in Hin as (k & He & Hk).
      destruct Hcall as [-> | [up ->]]; cbn in He; congruence.
    - apply list_elem_of_fmap in Hin as (k & -> & _).
      destruct Hcall as [Hc | [up Hc]]; discriminate. }
  split; [done | by apply (received_prefix groups)].
Qed.




(** ** The calls of the client *)

Section ClientFacts.

Variable resolve : string -> option string.
Variable valid_url : string -> bool.
Variable Do : Request -> option Response.

(** X13. [Delete] and [Upset] refuse a key that does not start with
    "job/" before anything is sent; a key computed by [Key] always starts
    with "job/", so neither of them ever answers such a key with the
    error "Key without job/ prefix.". *)
Theorem client_accepts_keys (key : string) (up : bool) :
  (strings.HasPrefix key "job/" = false ->
   Delete resolve valid_url Do key = ([], Some KeyWithoutJobPrefix) /\
   Upset resolve valid_url Do key up = ([], Some KeyWithoutJobPrefix)) /\
  (forall order g,
     Key_range order g = Some key ->
     (Delete resolve valid_url Do key).2 <> Some KeyWithoutJobPrefix /\
     (Upset resolve valid_url Do key up).2 <> Some KeyWithoutJobPrefix).
Proof.
  split.
  - intros Hp. unfold Delete, Upset. by rewrite Hp.
  - intros order g Hp%Key_range_prefix. unfold Delete, Upset.
    rewrite Hp. cbn [negb].
    destruct (resolve _) as [url|]; [|by split].
    destruct (valid_url url); cbn [negb]; [|by split].
    split.
    + destruct (Do _) as [res|]; [|done].
      by destruct (negb (StatusCode res =? 202)%Z).
    + destruct (Do _) as [res|]; [|done].
      by destruct (negb (StatusCode res =? 200)%Z).
Qed.

(** X14. A call of [Delete] or [Upset] sends at most one request. It
    returns no error exactly when the key starts with "job/", the URL of
    /metrics/<key> resolves and is accepted, and the one request sent is
    answered with the status 202 for [Delete] and 200 for [Upset]. The
    request of [Delete] is a DELETE without a body; that of [Upset] is a
    POST of "up 1" when up is true and a PUT of "up 0" when it is false,
    each followed by a newline. *)
Theorem client_call_outcome (key : string) (up : bool) :
  let newline := String "010" EmptyString in
  let delete_req url :=
    {| Method := "DELETE"; URL := url; RequestBody := None |} in
  let upset_req url :=
    {| Method := if up then "POST" else "PUT"; URL := url;
       RequestBody := Some (String.append (if up then "up 1" else "up 0")
                                          newline) |} in
  (length (Delete resolve valid_url Do key).1 <= 1 /\
   length (Upset resolve valid_url Do key up).1 <= 1) /\
  (forall reqs,
     Delete resolve valid_url Do key = (reqs, None) <->
     strings.HasPrefix key "job/" = true /\
     exists url res,
       resolve (String.append "/metrics/" key) = Some url /\
       valid_url url = true /\
       Do (delete_req url) = Some res /\ StatusCode res = 202%Z /\
       reqs = [delete_req url]) /\
  (forall reqs,
     Upset resolve valid_url Do key up = (reqs, None) <->
     strings.HasPrefix key "job/" = true /\
     exists url res,
       resolve (String.append "/metrics/" key) = Some url /\
       valid_url url = true /\
       Do (upset_req url) = Some res /\ StatusCode res = 200%Z /\
       reqs = [upset_req url]).
Proof.
  intros newline delete_req upset_req.
  assert (Hreq : forall url,
            (if up
             then {| Method := "POST"; URL := url;
                     RequestBody := Some (String.append "up 1" newline) |}
             else {| Method := "PUT"; URL := url;
                     RequestBody := Some (String.append "up 0" newline) |})
            = upset_req url).
  { intros url. unfold upset_req. by destruct up. }
  split; [|split].
  - unfold Delete, Upset.
    destruct (strings.HasPrefix key "job/"); cbn [negb fst length]; [|lia].
    destruct (resolve _) as [url|]; cbn [fst length]; [|lia].
    destruct (valid_url url); cbn [negb fst length]; [|lia].
    split.
    + destruct (Do _) as [res|]; [|cbn; lia].
      destruct (negb (StatusCode res =? 202)%Z); cbn; lia.
    + destruct (Do _) as [res|]; [|cbn; lia].
      destruct (negb (StatusCode res =? 200)%Z); cbn; lia.
  - intros reqs. unfold Delete. fold (delete_req).
    destruct (strings.HasPrefix key "job/"); cbn [negb];
      [|split; [done | by intros [? _]]].
    destruct (resolve _) as [url|];
      [|split; [done | by intros (_ & ? & ? & ? & _)]].
    destruct (valid_url url) eqn:Hv; cbn [negb].
    + fold (delete_req url).
      destruct (Do (delete_req url)) as [res|] eqn:Hdo.
      * destruct (Z.eqb_spec (StatusCode res) 202) as [Hs | Hs]; cbn [negb].
        -- split.
           ++ intros [= <-]. split; [done|]. exists url, res. done.
           ++ intros (_ & url' & res' & [= <-] & _ & _ & _ & ->). done.
        -- split; [done|].
           intros (_ & url' & res' & [= <-] & _ & Hdo' & Hs' & _).
           congruence.
      * split; [done|].
        intros (_ & url' & res' & [= <-] & _ & Hdo' & _). congruence.
    + split; [done|].
      intros (_ & url' & res' & [= <-] & Hv' & _). congruence.
  - intros reqs. unfold Upset. fold newline.
    destruct (strings.HasPrefix key "job/"); cbn [negb];
      [|split; [done | by intros [? _]]].
    destruct (resolve _) as [url|];
      [|split; [done | by intros (_ & ? & ? & ? & _)]].
    rewrite Hreq.
    destruct (valid_url url) eqn:Hv; cbn [negb].
    + destruct (Do (upset_req url)) as [res|] eqn:Hdo.
      * destruct (Z.eqb_spec (StatusCode res) 200) as [Hs | Hs]; cbn [negb].
        -- split.
           ++ intros [= <-]. split; [done|]. exists url, res. done.
           ++ intros (_ & url' & res' & [= <-] & _ & _ & _ & ->). done.
        -- split; [done|].
           intros (_ & url' & res' & [= <-] & _ & Hdo' & Hs' & _).
           congruence.
      * split; [done|].
        intros (_ & url' & res' & [= <-] & _ & Hdo' & _). congruence.
    + split; [done|].
      intros (_ & url' & res' & [= <-] & Hv' & _). congruence.
Qed.

End ClientFacts.

(** The key of the test group is accepted by the client, here with a
    server that is never reached. *)
Lemma client_accepts_keys_witness :
  let resolve := fun _ : string => None in
  let valid_url := fun _ : string => true in
  let Do := fun _ : Request => None in
  (Delete resolve valid_url Do "foo/bar" = ([], Some KeyWithoutJobPrefix) /\
   Upset resolve valid_url Do "foo/bar" true
     = ([], Some KeyWithoutJobPrefix)) /\
  ((Delete resolve valid_url Do "job/foo/instance/bar").2
     <> Some KeyWithoutJobPrefix /\
   (Upset resolve valid_url Do "job/foo/instance/bar" true).2
     <> Some KeyWithoutJobPrefix).
Proof.
  intros resolve valid_url Do. split.
  - apply (client_accepts_keys resolve valid_url Do "foo/bar" true).
    reflexivity.
  - apply (client_accepts_keys resolve valid_url Do
             "job/foo/instance/bar" true)
      with (order := ["job"; "instance"]) (g := test_group).
    reflexivity.
Defined.

(** ** From the JSON object to metrics groups *)

Lemma parseLabels_range_Some (entries : list (string * JSON))
    (acc labels : gmap string string) :
  NoDup entries.*1 ->
  parseLabels_range entries acc = Some labels ->
  (forall k v, (k, v) ∈ entries ->
               exists s, v = JString s /\ labels !! k = Some s) /\
  (forall k, k ∉ entries.*1 -> labels !! k = acc !! k).
Proof.
  revert acc. induction entries as [|[k0 v0] entries IH]; intros acc Hnd.
  - cbn. intros [= <-]. split; [|done].
    intros k v Hin. by apply elem_of_nil in Hin.
  - cbn [parseLabels_range]. rewrite fmap_cons in Hnd.
    apply NoDup_cons in Hnd as [Hk0 Hnd].
    destruct v0 as [| | |s0| |]; try done.
    intros Hrange. destruct (IH _ Hnd Hrange) as [Hin Hout]. split.
    + intros k v [[= -> ->] | Hkv]%elem_of_cons; [|by apply Hin].
      exists s0. split; [done|]. rewrite Hout by done.
      apply lookup_insert_eq.
    + intros k Hk. rewrite fmap_cons in Hk.
      apply not_elem_of_cons in Hk as [Hne Hk]. cbn in Hne.
      rewrite Hout by done. by apply lookup_insert_ne.
Qed.

Lemma parseLabels_range_is_Some (entries : list (string * JSON))
    (acc : gmap string string) :
  (forall k v, (k, v) ∈ entries -> exists s, v = JString s) ->
  is_Some (parseLabels_range entries acc).
Proof.
  revert acc. induction entries as [|[k0 v0] entries IH]; intros acc Hall.
  - by eexists.
  - destruct (Hall k0 v0) as [s0 ->]; [apply elem_of_cons; by left|].
    cbn. apply IH. intros k v Hin. apply (Hall k). apply elem_of_cons.
    by right.
Qed.

Lemma parseLabels_range_None (entries : list (string * JSON))
    (acc : gmap string string) :
  parseLabels_range entries acc = None ->
  exists k v, (k, v) ∈ entries /\ forall s, v <> JString s.
Proof.
  revert acc. induction entries as [|[k0 v0] entries IH]; intros acc; [done|].
  cbn [parseLabels_range].
  destruct v0 as [| | |s0| |];
    try (intros _; eexists k0, _; split; [apply elem_of_cons; by left | done]).
  intros (k & v & Hin & Hv)%IH. exists k, v. split; [|done].
  apply elem_of_cons. by right.
Qed.

Lemma parseLabels_lookup (data : gmap string JSON)
    (labels : gmap string string) :
  parseLabels data = Some labels ->
  forall k, data !! k = JString <$> labels !! k.
Proof.
  intros Hp k.
  destruct (parseLabels_range_Some _ _ _ (NoDup_fst_map_to_list data) Hp)
    as [Hin Hout].
  destruct (data !! k) as [v|] eqn:Hk.
  - apply elem_of_map_to_list in Hk. apply Hin in Hk as (s & -> & ->). done.
  - rewrite Hout, lookup_empty; [done|].
    intros Hin'%elem_of_range_names. rewrite Hk in Hin'. by destruct Hin'.
Qed.

(** X15. [parseLabels] returns the labels of the object exactly when all
    its values are strings, and then the labels are the attributes of the
    object with their values, whatever the order in which it is visited;
    otherwise it panics. *)
Theorem parseLabels_spec (data : gmap string JSON) :
  (forall labels,
     parseLabels data = Some labels <->
     forall k, data !! k = JString <$> labels !! k) /\
  (parseLabels data = None <->
   exists k v, data !! k = Some v /\ forall s, v <> JString s).
Proof.
  pose proof (parseLabels_lookup data) as Hto.
  split.
  - intros labels. split; [apply Hto|]. intros Hall.
    destruct (parseLabels_range_is_Some (map_to_list data) ∅)
      as [labels' Hp].
    { intros k v Hk%elem_of_map_to_list. rewrite Hall in Hk.
      destruct (labels !! k) as [s|]; [|done]. injection Hk as <-. eauto. }
    unfold parseLabels. rewrite Hp. f_equal. apply map_eq. intros k.
    pose proof (Hto labels' Hp k) as Hk. rewrite Hall in Hk.
    destruct (labels !! k), (labels' !! k); cbn in Hk; congruence.
  - split.
    + intros (k & v & Hin & Hv)%parseLabels_range_None.
      exists k, v. split; [by apply elem_of_map_to_list | done].
    + intros (k & v & Hk & Hv).
      destruct (parseLabels data) as [labels|] eqn:Hp; [|done].
      pose proof (Hto labels eq_refl k) as Hk'. rewrite Hk in Hk'.
      destruct (labels !! k) as [s|]; [|done]. injection Hk' as ->.
      by destruct (Hv s).
Qed.

Section ParseFacts.

Variable parseRFC3339 : string -> option Time.

Lemma object_or_not (v : JSON) :
  (exists o, v = JObject o) \/ (forall o, v <> JObject o).
Proof. destruct v; eauto; by right. Qed.

Lemma parseMetricsGroup_range_skip (k0 : string) (v0 : JSON)
    (entries : list (string * JSON)) (labels0 : gmap string string)
    (metrics0 : gmap string Metric) :
  (forall o, v0 <> JObject o) ->
  parseMetricsGroup_range parseRFC3339 ((k0, v0) :: entries) labels0 metrics0
  = parseMetricsGroup_range parseRFC3339 entries labels0 metrics0.
Proof. intros Hno. destruct v0; try done. by destruct (Hno fields). Qed.

Lemma parseMetricsGroup_range_Some (entries : list (string * JSON))
    (labels0 : gmap string string) (metrics0 : gmap string Metric)
    (g : MetricsGroup) :
  NoDup entries.*1 ->
  parseMetricsGroup_range parseRFC3339 entries labels0 metrics0 = Some g ->
  (forall o, ("labels", JObject o) ∈ entries ->
             parseLabels o = Some (Labels g)) /\
  ((forall o, ("labels", JObject o) ∉ entries) -> Labels g = labels0) /\
  (forall k o, k <> "labels" -> (k, JObject o) ∈ entries ->
               exists m, parseMetric parseRFC3339 o = Some m /\
                         Metrics g !! k = Some m) /\
  (forall k, k = "labels" \/ (forall o, (k, JObject o) ∉ entries) ->
             Metrics g !! k = metrics0 !! k).
Proof.
  revert labels0 metrics0.
  induction entries as [|[k0 v0] entries IH]; intros labels0 metrics0 Hnd.
  { cbn. intros [= <-]. cbn. repeat split; try done.
    - intros o Hin. by apply elem_of_nil in Hin.
    - intros k o _ Hin. by apply elem_of_nil in Hin. }
  rewrite fmap_cons in Hnd. apply NoDup_cons in Hnd as [Hk0 Hnd].
  cbn [fst] in Hk0.
  assert (Hfresh : forall v, (k0, v) ∉ entries).
  { intros v Hin. apply Hk0. apply list_elem_of_fmap. by exists (k0, v). }
  assert (Htail : forall k o, (k, JObject o) ∈ entries ->
                              (k, JObject o) ∈ (k0, v0) :: entries).
  { intros k o Hin. apply elem_of_cons. by right. }
  destruct (object_or_not v0) as [[o0 ->] | Hno].
  - cbn [parseMetricsGroup_range].
    destruct (String.eqb_spec k0 "labels") as [-> | Hne].
    + (* the labels object *)
      destruct (parseLabels o0) as [labels'|] eqn:Hl; [|done].
      intros Hrange. destruct (IH _ _ Hnd Hrange) as (H1 & H2 & H3 & H4).
      assert (Hlab : Labels g = labels').
      { apply H2. intros o Hin. by apply (Hfresh (JObject o)). }
      split; [|split; [|split]].
      * intros o Hin. apply elem_of_cons in Hin as [Heq | Hin].
        -- injection Heq as ->. by rewrite Hlab.
        -- by destruct (Hfresh (JObject o)).
      * intros Hnone. destruct (Hnone o0). apply elem_of_cons. by left.
      * intros k o Hk Hin. apply elem_of_cons in Hin as [Heq | Hin].
        -- injection Heq as -> _. done.
        -- by apply H3.
      * intros k [-> | Hnone]; apply H4; [by left | right].
        intros o Hin. apply (Hnone o). by apply Htail.
    + (* a metric *)
      destruct (parseMetric parseRFC3339 o0) as [m0|] eqn:Hm; [|done].
      intros Hrange. destruct (IH _ _ Hnd Hrange) as (H1 & H2 & H3 & H4).
      split; [|split; [|split]].
      * intros o Hin. apply elem_of_cons in Hin as [Heq | Hin].
        -- injection Heq as Heq _. by destruct Hne.
        -- by apply H1.
      * intros Hnone. apply H2. intros o Hin. apply (Hnone o).
        by apply Htail.
      * intros k o Hk Hin. apply elem_of_cons in Hin as [Heq | Hin].
        -- injection Heq as -> ->. exists m0. split; [done|]. rewrite H4.
           ++ apply lookup_insert_eq.
           ++ right. intros o Hin. by apply (Hfresh (JObject o)).
        -- by apply H3.
      * intros k [-> | Hnone].
        -- rewrite H4 by (by left). by apply lookup_insert_ne.
        -- assert (k0 <> k).
           { intros ->. apply (Hnone o0). apply elem_of_cons. by left. }
           rewrite H4; [by apply lookup_insert_ne|]. right.
           intros o Hin. apply (Hnone o). by apply Htail.
  - rewrite parseMetricsGroup_range_skip by done.
    intros Hrange. destruct (IH _ _ Hnd Hrange) as (H1 & H2 & H3 & H4).
    assert (Hhead : forall k o, (k, JObject o) ∈ (k0, v0) :: entries ->
                                (k, JObject o) ∈ entries).
    { intros k o Hin. apply elem_of_cons in Hin as [Heq | Hin]; [|done].
      injection Heq as _ Heq. by destruct (Hno o). }
    split; [|split; [|split]].
    + intros o Hin. by apply H1, Hhead.
    + intros Hnone. apply H2. intros o Hin. apply (Hnone o). by apply Htail.
    + intros k o Hk Hin. by apply H3, Hhead.
    + intros k [-> | Hnone]; apply H4; [by left | right].
      intros o Hin. apply (Hnone o). by apply Htail.
Qed.

Lemma parseMetricsGroup_range_is_Some (entries : list (string * JSON))
    (labels0 : gmap string string) (metrics0 : gmap string Metric) :
  (forall o, ("labels", JObject o) ∈ entries -> is_Some (parseLabels o)) ->
  (forall k o, k <> "labels" -> (k, JObject o) ∈ entries ->
               is_Some (parseMetric parseRFC3339 o)) ->
  is_Some (parseMetricsGroup_range parseRFC3339 entries labels0 metrics0).
Proof.
  revert labels0 metrics0.
  induction entries as [|[k0 v0] entries IH]; intros labels0 metrics0 Hl Hm.
  { by eexists. }
  assert (Hl' : forall o, ("labels", JObject o) ∈ entries ->
                          is_Some (parseLabels o)).
  { intros o Hin. apply Hl. apply elem_of_cons. by right. }
  assert (Hm' : forall k o, k <> "labels" -> (k, JObject o) ∈ entries ->
                            is_Some (parseMetric parseRFC3339 o)).
  { intros k o Hk Hin. apply (Hm k); [done|]. apply elem_of_cons. by right. }
  destruct (object_or_not v0) as [[o0 ->] | Hno].
  - cbn [parseMetricsGroup_range].
    destruct (String.eqb_spec k0 "labels") as [-> | Hne].
    + destruct (Hl o0) as [labels' ->]; [apply elem_of_cons; by left|].
      by apply IH.
    + destruct (Hm k0 o0) as [m0 ->]; [done | apply elem_of_cons; by left|].
      by apply IH.
  - rewrite parseMetricsGroup_range_skip by done. by apply IH.
Qed.

Lemma parseMetricsGroup_fields (data : gmap string JSON) (g' : MetricsGroup) :
  parseMetricsGroup parseRFC3339 data = Some g' ->
  match data !! "labels" with
  | Some (JObject o) => parseLabels o = Some (Labels g')
  | _ => Labels g' = ∅
  end /\
  (forall k,
     Metrics g' !! k =
       match data !! k with
       | Some (JObject o) =>
           if decide (k = "labels") then None
           else parseMetric parseRFC3339 o
       | _ => None
       end) /\
  (forall k o, k <> "labels" -> data !! k = Some (JObject o) ->
               is_Some (parseMetric parseRFC3339 o)).
Proof.
  intros Hp.
  destruct (parseMetricsGroup_range_Some _ _ _ _
              (NoDup_fst_map_to_list data) Hp) as (H1 & H2 & H3 & H4).
  assert (Hnone : forall k, (forall o, data !! k <> Some (JObject o)) ->
                            forall o, (k, JObject o) ∉ map_to_list data).
  { intros k Hk o Hin%elem_of_map_to_list. by destruct (Hk o). }
  split; [|split].
  - destruct (data !! "labels") as [v|] eqn:Hl.
    + destruct (object_or_not v) as [[o ->] | Hno].
      * apply H1. by apply elem_of_map_to_list.
      * assert (Labels g' = ∅) as Hg'.
        { apply H2, Hnone. rewrite Hl. intros o [= ->].
          by destruct (Hno o). }
        destruct v; try done. by destruct (Hno fields).
    + apply H2, Hnone. by rewrite Hl.
  - intros k. destruct (data !! k) as [v|] eqn:Hk.
    + destruct (object_or_not v) as [[o ->] | Hno].
      * destruct (decide (k = "labels")) as [-> | Hne].
        -- rewrite H4 by (by left). apply lookup_empty.
        -- destruct (H3 k o Hne) as (m & -> & ->); [|done].
           by apply elem_of_map_to_list.
      * assert (Metrics g' !! k = None) as Hg'.
        { rewrite H4; [apply lookup_empty|]. right. apply Hnone.
          rewrite Hk. intros o [= ->]. by destruct (Hno o). }
        destruct v; try done. by destruct (Hno fields).
    + rewrite H4; [apply lookup_empty|]. right. apply Hnone.
      by rewrite Hk.
  - intros k o Hne Hk.
    destruct (H3 k o Hne) as (m & -> & _); [|done].
    by apply elem_of_map_to_list.
Qed.

(** X16. [parseMetricsGroup] returns a group exactly when the object
    "labels", if there is one, has only strings as values and every other
    attribute that is an object is a metric with a time_stamp in RFC 3339;
    otherwise it panics. The labels of the group are those of the object
    "labels" (none when "labels" is missing or is no object), its metrics
    are the other attributes that are objects, and attributes that are no
    objects are passed over, whatever the order in which the attributes
    are visited. *)
Theorem parseMetricsGroup_spec (data : gmap string JSON) (g : MetricsGroup) :
  parseMetricsGroup parseRFC3339 data = Some g <->
  match data !! "labels" with
  | Some (JObject o) => parseLabels o = Some (Labels g)
  | _ => Labels g = ∅
  end /\
  (forall k,
     Metrics g !! k =
       match data !! k with
       | Some (JObject o) =>
           if decide (k = "labels") then None
           else parseMetric parseRFC3339 o
       | _ => None
       end) /\
  (forall k o, k <> "labels" -> data !! k = Some (JObject o) ->
               is_Some (parseMetric parseRFC3339 o)).
Proof.
  pose proof (parseMetricsGroup_fields data) as Hto.
  split; [apply Hto|].
  intros (Hl & Hm & Hok).
  destruct (parseMetricsGroup_range_is_Some (map_to_list data) ∅ ∅)
    as [g' Hg'].
  { intros o Hin%elem_of_map_to_list. rewrite Hin in Hl. eauto. }
  { intros k o Hne Hin%elem_of_map_to_list. by apply (Hok k). }
  unfold parseMetricsGroup. rewrite Hg'. f_equal.
  destruct (Hto g' Hg') as (Hl' & Hm' & _).
  destruct g as [labels metrics], g' as [labels' metrics'].
  cbn [Labels Metrics] in *. f_equal.
  - destruct (data !! "labels") as [[| | | | |o]|]; congruence.
  - apply map_eq. intros k. by rewrite Hm, Hm'.
Qed.

Lemma parseMetricsGroups_range_spec (data : list JSON)
    (acc groups : list MetricsGroup) :
  parseMetricsGroups_range parseRFC3339 data acc = Some groups <->
  exists gs,
    Forall2 (fun item g =>
               exists o, item = JObject o /\
                         parseMetricsGroup parseRFC3339 o = Some g)
            data gs /\
    groups = acc ++ gs.
Proof.
  revert acc. induction data as [|item data IH]; intros acc.
  - cbn. split.
    + intros [= <-]. exists []. split; [constructor | by rewrite app_nil_r].
    + intros (gs & Hall & ->). apply Forall2_nil_inv_l in Hall as ->.
      by rewrite app_nil_r.
  - cbn [parseMetricsGroups_range]. split.
    + destruct (object_or_not item) as [[o ->] | Hno].
      * destruct (parseMetricsGroup parseRFC3339 o) as [g|] eqn:Hg; [|done].
        intros (gs & Hall & ->)%IH. exists (g :: gs). split.
        -- constructor; [eauto | done].
        -- by rewrite <- app_assoc.
      * destruct item; try done. by destruct (Hno fields).
    + intros (gs & Hall & ->).
      apply Forall2_cons_inv_l in Hall as (g & gs' & (o & -> & Hg) & Hall & ->).
      rewrite Hg. apply IH. exists gs'. split; [done|].
      by rewrite <- app_assoc.
Qed.

(** X17. [parseMetricsGroups] returns an error, whatever the rest of the
    object, exactly when the status attribute is a string other than
    "success"; it returns groups exactly when the status is "success",
    the data attribute is an array, and every item of the array is an
    object from which [parseMetricsGroup] returns a group: the groups are
    those of the items, one for one and in the order of the array. In
    every other case it panics. *)
Theorem parseMetricsGroups_spec (object : gmap string JSON) :
  (forall groups,
     parseMetricsGroups parseRFC3339 object = Returned groups <->
     object !! "status" = Some (JString "success") /\
     exists data,
       object !! "data" = Some (JArray data) /\
       Forall2 (fun item g =>
                  exists o, item = JObject o /\
                            parseMetricsGroup parseRFC3339 o = Some g)
               data groups) /\
  (forall err,
     parseMetricsGroups parseRFC3339 object = Failed err <->
     exists status,
       object !! "status" = Some (JString status) /\
       status <> "success" /\ err = StatusAttribute status).
Proof.
  unfold parseMetricsGroups. split.
  - intros groups.
    destruct (object !! "status") as [[| | |status| |]|];
      try (split; [done | by intros [[=] _]]).
    destruct (String.eqb_spec status "success") as [-> | Hne]; cbn [negb];
      [|split; [done | intros [[= ->] _]; done]].
    destruct (object !! "data") as [[| | | |data|]|];
      try (split; [done | by intros [_ (? & [=] & _)]]).
    destruct (parseMetricsGroups_range parseRFC3339 data []) as [gs|] eqn:Hr.
    + apply parseMetricsGroups_range_spec in Hr as (gs' & Hall & ->).
      cbn [app]. split.
      * intros [= <-]. split; [done|]. by exists data.
      * intros [_ (data' & [= <-] & Hall')]. f_equal.
        clear -Hall Hall'. revert groups Hall'.
        induction Hall as [|item g data gs (o & -> & Hg) _ IH];
          intros groups Hall'.
        -- by apply Forall2_nil_inv_l in Hall' as ->.
        -- apply Forall2_cons_inv_l in Hall'
             as (g' & gs' & (o' & [= <-] & Hg') & Hall' & ->).
           f_equal; [congruence | by apply IH].
    + split; [done|]. intros [_ (data' & [= <-] & Hall)].
      assert (Hsome : parseMetricsGroups_range parseRFC3339 data []
                      = Some groups).
      { apply parseMetricsGroups_range_spec. by exists groups. }
      congruence.
  - intros err.
    destruct (object !! "status") as [[| | |status| |]|];
      try (split; [done | by intros (? & [=] & _)]).
    destruct (String.eqb_spec status "success") as [-> | Hne]; cbn [negb].
    + split.
      * destruct (object !! "data") as [[| | | |data|]|]; try done.
        by destruct (parseMetricsGroups_range parseRFC3339 data []).
      * intros (status & [= <-] & Hne & _). done.
    + split.
      * intros [= <-]. by exists status.
      * intros (status' & [= <-] & _ & ->). done.
Qed.

(** X18. An item of the data array that has no object "labels" gives a
    group without labels, and the loop passes it over: such an item is
    never tracked. Its metrics are parsed all the same, so a time stamp
    that is not in RFC 3339 in such an item still panics. *)
Theorem unlabelled_item_skipped (data : gmap string JSON) :
  (forall o, data !! "labels" <> Some (JObject o)) ->
  (forall g,
     parseMetricsGroup parseRFC3339 data = Some g ->
     Labels g = ∅ /\
     forall (clock : nat -> Time) exp s, loop_body clock exp g s = Some s) /\
  (forall k o,
     k <> "labels" -> data !! k = Some (JObject o) ->
     parseMetric parseRFC3339 o = None ->
     parseMetricsGroup parseRFC3339 data = None).
Proof.
  intros Hno. split.
  - intros g (Hl & _)%parseMetricsGroup_fields.
    assert (Hlab : Labels g = ∅).
    { destruct (data !! "labels") as [[| | | | |o]|]; try done.
      by destruct (Hno o). }
    split; [done|]. intros clock exp s. apply loop_body_skip.
    unfold LabelNamesMatch. by rewrite Hlab.
  - intros k o Hne Hk Hbad.
    destruct (parseMetricsGroup parseRFC3339 data) as [g|] eqn:Hg; [|done].
    apply parseMetricsGroup_fields in Hg as (_ & _ & Hok).
    destruct (Hok k o Hne Hk) as [m Hm]. congruence.
Qed.

(** X19. An item whose object "labels" has exactly the attributes job and
    instance, both strings, gives a group that the loop tracks under the
    key job/<job>/instance/<instance>. *)
Theorem labelled_item_key (data o : gmap string JSON) (g : MetricsGroup)
    (job inst : string) :
  data !! "labels" = Some (JObject o) ->
  (forall k, o !! k =
             ({["job" := JString job; "instance" := JString inst]}
                : gmap string JSON) !! k) ->
  parseMetricsGroup parseRFC3339 data = Some g ->
  LabelNamesMatch g ["job"; "instance"] = true /\
  Key g = Some (String.append "job/"
                  (String.append job (String.append "/instance/" inst))).
Proof.
  intros Hl Ho (Hlab & _)%parseMetricsGroup_fields.
  rewrite Hl in Hlab. pose proof (parseLabels_lookup _ _ Hlab) as Hlook.
  clear Hlab. rename Hlook into Hlab.
  assert (Hjob : Labels g !! "job" = Some job).
  { specialize (Hlab "job"). rewrite Ho in Hlab.
    rewrite lookup_insert_eq in Hlab.
    destruct (Labels g !! "job"); cbn in Hlab; congruence. }
  assert (Hinst : Labels g !! "instance" = Some inst).
  { specialize (Hlab "instance"). rewrite Ho in Hlab.
    rewrite lookup_insert_ne, lookup_singleton_eq in Hlab by done.
    destruct (Labels g !! "instance"); cbn in Hlab; congruence. }
  assert (Hm : LabelNamesMatch g ["job"; "instance"] = true).
  { apply LabelNamesMatch_job_instance. apply set_eq. intros k.
    rewrite elem_of_dom, elem_of_union, !elem_of_singleton.
    specialize (Hlab k). rewrite Ho in Hlab. split.
    - intros [v Hv]. rewrite Hv in Hlab.
      destruct (decide (k = "job")) as [|Hn1]; [by left|].
      destruct (decide (k = "instance")) as [|Hn2]; [by right|].
      rewrite lookup_insert_ne, lookup_singleton_ne in Hlab by done. done.
    - intros [-> | ->]; eauto. }
  split; [done|].
  by apply (Key_range_job_instance g (range_names (Labels g)) job inst).
Qed.

End ParseFacts.

(** An item without labels and with an attribute that is no object; and
    the same with a metric whose time stamp is not understood. *)
Lemma unlabelled_item_skipped_witness :
  let parse := fun _ : string => None in
  let data : gmap string JSON := <["last_push_successful" := JBool true]> ∅ in
  (forall g,
     parseMetricsGroup parse data = Some g ->
     Labels g = ∅ /\
     forall (clock : nat -> Time) exp s, loop_body clock exp g s = Some s) /\
  (forall k o,
     k <> "labels" -> data !! k = Some (JObject o) ->
     parseMetric parse o = None ->
     parseMetricsGroup parse data = None).
Proof.
  intros parse data. apply (unlabelled_item_skipped parse data).
  intros o. vm_compute. discriminate.
Defined.

(** The item of a group job=foo, instance=bar with one metric. *)
Lemma labelled_item_key_witness :
  let parse := fun s : string =>
                 if String.eqb s "0001-01-01T00:00:01Z"
                 then Some 1000000000%Z else None in
  let o : gmap string JSON :=
    {["job" := JString "foo"; "instance" := JString "bar"]} in
  let data : gmap string JSON :=
    <["labels" := JObject o]>
      (<["baz" := JObject (<["time_stamp" :=
                               JString "0001-01-01T00:00:01Z"]> ∅)]>
         (<["last_push_successful" := JBool true]> ∅)) in
  let g := {| Labels := <["job" := "foo"]> (<["instance" := "bar"]> ∅);
              Metrics := <["baz" := mkMetric 1000000000%Z]> ∅ |} in
  parseMetricsGroup parse data = Some g /\
  LabelNamesMatch g ["job"; "instance"] = true /\
  Key g = Some "job/foo/instance/bar".
Proof.
  intros parse o data g.
  assert (Hg : parseMetricsGroup parse data = Some g) by by vm_compute.
  split; [exact Hg|].
  apply (labelled_item_key parse data o g "foo" "bar");
    [by vm_compute | done | exact Hg].
Defined.

(** ** The earlier revisions *)

Lemma loop_body_rev2 (clock : nat -> Time) (exp : Time) (g : MetricsGroup)
    (s : World * list string) :
  (forall newest,
     MaxTimestamp (Metrics g) = Some newest -> Before newest exp = false) ->
  loop_body clock exp g s = main_rev2.loop_body clock g s.
Proof.
  intros Hfresh. destruct s as [w rk].
  unfold loop_body, main_rev2.loop_body.
  destruct (negb (LabelNamesMatch g ["job"; "instance"])); [done|].
  destruct (Key g) as [key|]; [|done].
  destruct (MinTimestamp _) as [ts|]; [|done].
  destruct (states w !! key) as [st|]; [|done].
  destruct (MaxTimestamp_spec (Metrics g)) as (newest & Hmax & _).
  by rewrite Hmax, (Hfresh newest Hmax).
Qed.

(** X20. As long as no group of the snapshot has its highest timestamp
    before the expiration time, a tick of the current revision does what
    a tick of the revision without TTL does after the one clock reading
    for the expiration time: the same states, clock reads and events. *)
Theorem ttl_tick_without_expiry (clock : nat -> Time) (groupTTL : Duration)
    (groups : list MetricsGroup) (w : World) :
  (forall g newest,
     g ∈ groups -> MaxTimestamp (Metrics g) = Some newest ->
     Before newest (Add (clock (reads w)) (dur_neg groupTTL)) = false) ->
  tick clock groupTTL groups w =
  main_rev2.tick clock groups
    {| states := states w; reads := S (reads w); events := events w |}.
Proof.
  intros Hfresh. unfold tick, main_rev2.tick.
  set (exp := Add (clock (reads w)) (dur_neg groupTTL)) in *.
  assert (Hrange : forall s,
            range_groups clock exp groups s
            = main_rev2.range_groups clock groups s).
  { induction groups as [|g groups IH]; intros s; [done|].
    cbn [range_groups main_rev2.range_groups].
    rewrite loop_body_rev2.
    - destruct (main_rev2.loop_body clock g s) as [s'|]; [|done].
      apply IH. intros g' newest Hin. apply Hfresh. apply elem_of_cons.
      by right.
    - intros newest. apply Hfresh. apply elem_of_cons. by left. }
  by rewrite Hrange.
Qed.

(** With a TTL of 10 and the clock at 100, the test group, whose metrics
    are of 2023, is not expired. *)
Lemma ttl_tick_without_expiry_witness :
  let clock := fun _ : nat => Add test_now 100%Z in
  let w := {| states := {["job/foo/instance/bar" := NewGroupState test_earlier]};
              reads := 0; events := [] |} in
  tick clock 10%Z [test_group] w =
  main_rev2.tick clock [test_group]
    {| states := states w; reads := 1; events := events w |}.
Proof.
  intros clock w. apply (ttl_tick_without_expiry clock 10%Z [test_group] w).
  intros g newest Hin Hmax.
  apply list_elem_of_singleton in Hin as ->.
  assert (Hlater : MaxTimestamp (Metrics test_group) = Some test_later)
    by by vm_compute.
  assert (newest = test_later) as -> by congruence.
  reflexivity.
Defined.

Lemma loop_body_rev1_dom (clock : nat -> Time) (g : MetricsGroup) (w : World) :
  exists w' evs,
    main_rev1.loop_body clock g w = Some w' /\
    dom (states w') = dom (states w) ∪ (list_to_set (received [g]) : gset string) /\
    events w' = events w ++ evs /\
    Forall (fun e => forall key,
              e <> ClientDelete key /\ e <> LogGroupExpired key /\
              e <> LogGroupRemoved key) evs.
Proof.
  unfold main_rev1.loop_body.
  destruct (LabelNamesMatch g ["job"; "instance"]) eqn:Hm; cbn [negb].
  - destruct (Key_range_is_Some (range_names (Labels g)) g
                (LabelNamesMatch_job g Hm)) as [key Hkey].
    rewrite (received_one g key Hm Hkey). unfold Key. rewrite Hkey.
    destruct (MinTimestamp_spec
                (Filter (Metrics g)
                   ["up"; "push_time_seconds"; "push_failure_time_seconds"]))
      as (ts & -> & _).
    assert (Hdom : forall st : GroupState,
              dom (<[key := st]> (states w))
              = dom (states w) ∪ (list_to_set [key] : gset string)).
    { intros st. rewrite dom_insert_L, list_to_set_cons, list_to_set_nil.
      rewrite (right_id_L ∅ (∪)). apply (comm_L (∪)). }
    destruct (states w !! key) as [st|].
    + destruct (Update (clock (reads w)) ts st) as [st' [|]].
      * eexists _, _. split; [reflexivity|]. split; [apply Hdom|].
        split; [reflexivity|].
        repeat constructor; try done; by destruct (IsUp _ _).
      * eexists _, []. split; [reflexivity|]. split; [apply Hdom|].
        split; [by rewrite app_nil_r | constructor].
    + eexists _, _. split; [reflexivity|]. split; [apply Hdom|].
      split; [reflexivity|]. repeat constructor; done.
  - assert (Hr : received [g] = []) by (unfold received; cbn; by rewrite Hm).
    rewrite Hr. exists w, []. split; [done|].
    split; [by rewrite list_to_set_nil, (right_id_L ∅ (∪))|].
    split; [by rewrite app_nil_r | constructor].
Qed.

(** X21. The oldest revision forgets nothing: after a pass over the
    snapshot, the tracked keys are those tracked before together with the
    keys received, and no event is an expiry, a removal or a call of
    [client.Delete]. The pass does not panic. *)
Theorem rev1_never_forgets (clock : nat -> Time)
    (groups : list MetricsGroup) (w : World) :
  exists w' evs,
    main_rev1.tick clock groups w = Some w' /\
    dom (states w') =
      dom (states w) ∪ (list_to_set (received groups) : gset string) /\
    events w' = events w ++ evs /\
    Forall (fun e => forall key,
              e <> ClientDelete key /\ e <> LogGroupExpired key /\
              e <> LogGroupRemoved key) evs.
Proof.
  revert w. induction groups as [|g groups IH]; intros w.
  - exists w, []. cbn [main_rev1.tick]. split; [done|].
    split; [unfold received; cbn; by rewrite (right_id_L ∅ (∪))|].
    split; [by rewrite app_nil_r | constructor].
  - destruct (loop_body_rev1_dom clock g w)
      as (w1 & evs1 & Hbody & Hdom1 & Hev1 & Hall1).
    destruct (IH w1) as (w2 & evs2 & Htick & Hdom2 & Hev2 & Hall2).
    exists w2, (evs1 ++ evs2). cbn [main_rev1.tick].
    rewrite Hbody, Htick. split; [done|]. split; [|split].
    + rewrite Hdom2, Hdom1, (received_cons g groups), list_to_set_app_L.
      by rewrite (assoc_L (∪)).
    + by rewrite Hev2, Hev1, app_assoc.
    + by apply Forall_app.
Qed.

(** ** Invariants of the polling loop *)

Lemma sweep_states_received (rk : list string) (w : World) (key : string) :
  is_Some (states (sweep rk w) !! key) ->
  key ∈ rk /\ states (sweep rk w) !! key = states w !! key.
Proof.
  destruct (sweep_fold rk (range_names (states w)) w) as (Hgone & Hkept & _).
  unfold sweep. intros Hsome.
  destruct (decide (key ∈ rk)) as [Hin | Hout].
  - split; [done|]. apply Hkept. by right.
  - exfalso.
    destruct (decide (key ∈ range_names (states w))) as [Hin | Hnin].
    + rewrite Hgone in Hsome by done. by destruct Hsome.
    + rewrite Hkept in Hsome by (by left).
      by apply elem_of_range_names in Hsome.
Qed.

Section Invariants.

Variable clock : nat -> Time.
Variable groupTTL : Duration.

(** A property of group states that holds of new states and is kept by
    [Update] holds of all tracked states after an iteration. *)
Variable P : GroupState -> Prop.
Hypothesis P_new : forall ts, P (NewGroupState ts).
Hypothesis P_update : forall now ts st, P st -> P (Update now ts st).1.

Lemma loop_body_keeps (exp : Time) (g : MetricsGroup)
    (s s' : World * list string) :
  loop_body clock exp g s = Some s' ->
  map_Forall (fun _ => P) (states s.1) ->
  map_Forall (fun _ => P) (states s'.1).
Proof.
  destruct s as [w rk].
  destruct (LabelNamesMatch g ["job"; "instance"]) eqn:Hm.
  - destruct (loop_body_cases clock exp g w rk Hm)
      as (key & ts & newest & _ & _ & _ & w' & -> & Hw').
    intros [= <-] Hall. cbn [fst] in *.
    destruct (states w !! key) as [st|] eqn:Hst.
    + destruct (Before newest exp).
      * subst w'. by apply map_Forall_delete.
      * destruct Hw' as [-> _]. apply map_Forall_insert_2; [|done].
        apply P_update. by apply (Hall key).
    + subst w'. by apply map_Forall_insert_2.
  - rewrite (loop_body_skip clock exp g (w, rk) Hm). by intros [= <-].
Qed.

Lemma range_groups_keeps (exp : Time) (groups : list MetricsGroup)
    (s s' : World * list string) :
  range_groups clock exp groups s = Some s' ->
  map_Forall (fun _ => P) (states s.1) ->
  map_Forall (fun _ => P) (states s'.1).
Proof.
  revert s. induction groups as [|g groups IH]; intros s.
  - by intros [= <-].
  - cbn [range_groups].
    destruct (loop_body clock exp g s) as [s1|] eqn:Hbody; [|done].
    intros Hrange Hall. apply (IH s1 Hrange).
    by apply (loop_body_keeps exp g s s1).
Qed.

Lemma tick_keeps (groups : list MetricsGroup) (w w' : World) :
  tick clock groupTTL groups w = Some w' ->
  map_Forall (fun _ => P) (states w) ->
  map_Forall (fun _ => P) (states w').
Proof.
  unfold tick.
  destruct (range_groups _ _ _ _) as [[w1 rk]|] eqn:Hrange; [|done].
  intros [= <-] Hall.
  apply (range_groups_keeps _ _ _ _ Hrange) in Hall. cbn [fst] in Hall.
  intros key st Hst.
  destruct (sweep_states_received rk w1 key) as [_ Heq]; [by eexists|].
  rewrite Heq in Hst. by apply (Hall key).
Qed.

Lemma run_keeps (queries : list (option (list MetricsGroup))) (w w' : World) :
  run clock groupTTL queries w = Some w' ->
  map_Forall (fun _ => P) (states w) ->
  map_Forall (fun _ => P) (states w').
Proof.
  revert w. induction queries as [|query queries IH]; intros w.
  - by intros [= <-].
  - cbn [run]. destruct query as [groups|]; cbn [iteration].
    + destruct (tick clock groupTTL groups w) as [w1|] eqn:Htick; [|done].
      intros Hrun Hall. apply (IH w1 Hrun).
      by apply (tick_keeps groups w w1).
    + intros Hrun Hall. by apply (IH _ Hrun).
Qed.

End Invariants.

Lemma run_keys_prefix (clock : nat -> Time) (groupTTL : Duration)
    (queries : list (option (list MetricsGroup))) (w w' : World) :
  run clock groupTTL queries w = Some w' ->
  (forall key, is_Some (states w !! key) ->
               strings.HasPrefix key "job/" = true) ->
  forall key, is_Some (states w' !! key) ->
              strings.HasPrefix key "job/" = true.
Proof.
  revert w. induction queries as [|query queries IH]; intros w.
  - by intros [= <-].
  - cbn [run]. destruct query as [groups|]; cbn [iteration].
    + unfold tick.
      destruct (range_groups_frame clock
                  (Add (clock (reads w)) (dur_neg groupTTL)) groups
                  {| states := states w; reads := S (reads w);
                     events := events w |} [])
        as (w1 & -> & _).
      intros Hrun _. apply (IH _ Hrun).
      intros key [Hin _]%sweep_states_received.
      by apply (received_prefix groups).
    + intros Hrun Hall. by apply (IH _ Hrun).
Qed.


(** X22. However long the loop has run from its start, with queries that
    succeed and queries that fail: every tracked key starts with "job/",
    and every tracked state that is stored as up has a timestamp that is
    not the zero time and a timeout that is not zero. *)
Theorem run_invariants (clock : nat -> Time) (groupTTL : Duration)
    (queries : list (option (list MetricsGroup))) :
  exists w,
    run clock groupTTL queries start = Some w /\
    forall key st,
      states w !! key = Some st ->
      strings.HasPrefix key "job/" = true /\
      (up st = true -> IsZero (timestamp st) = false /\ timeout st <> 0%Z).
Proof.
  destruct (run_total clock groupTTL queries start) as [w Hrun].
  exists w. split; [done|]. intros key st Hst. split.
  - apply (run_keys_prefix clock groupTTL queries start w Hrun);
      [|by eexists].
    intros k [st0 Hk]. cbn in Hk. by rewrite lookup_empty in Hk.
  - revert key st Hst.
    apply (run_keeps clock groupTTL
             (fun st => up st = true ->
                        IsZero (timestamp st) = false /\ timeout st <> 0%Z))
      with (queries := queries) (w := start); [| |done|].
    + intros ts. cbn. discriminate.
    + intros now ts st _.
      destruct (Update_fields now ts st) as (_ & _ & Hup & _).
      cbv zeta in Hup. rewrite Hup. unfold IsUp.
      destruct (IsZero (timestamp (Update now ts st).1)); [done|].
      destruct (Z.eqb_spec (timeout (Update now ts st).1) 0); [done|].
      done.
    + intros key st Hst. cbn in Hst. by rewrite lookup_empty in Hst.
Qed.

(** ** The query *)

Section QueryFacts.

Variable parseRFC3339 : string -> option Time.
Variable resolve : string -> option string.
Variable Get : string -> option Response.
Variable unmarshal : string -> option (gmap string JSON).

(** X23. [QueryMetrics] returns groups only from a response with the
    status 200 whose body is read and decoded, and then they are the
    groups [parseMetricsGroups] returns for the decoded object. It panics
    only when the URL of the Query API does not resolve or when
    [parseMetricsGroups] panics on the decoded object of such a response.
    A failed request, another status, a body that cannot be read or
    decoded are errors: they never panic and never give groups. *)
Theorem QueryMetrics_outcome :
  let query := QueryMetrics parseRFC3339 resolve Get unmarshal in
  let decoded (object : gmap string JSON) : Prop :=
    exists url res body,
      resolve "/api/v1/metrics" = Some url /\
      Get url = Some res /\ StatusCode res = 200%Z /\
      Body res = Some body /\ unmarshal body = Some object in
  (forall groups,
     query = Returned groups <->
     exists object,
       decoded object /\
       parseMetricsGroups parseRFC3339 object = Returned groups) /\
  (query = Panicked <->
   resolve "/api/v1/metrics" = None \/
   exists object,
     decoded object /\ parseMetricsGroups parseRFC3339 object = Panicked).
Proof.
  intros query decoded. subst query decoded. unfold QueryMetrics.
  assert (Hchain : forall (object : gmap string JSON) (Q : Prop),
            (forall url res body,
               resolve "/api/v1/metrics" = Some url -> Get url = Some res ->
               StatusCode res = 200%Z -> Body res = Some body ->
               unmarshal body = Some object -> Q) ->
            (exists url res body,
               resolve "/api/v1/metrics" = Some url /\
               Get url = Some res /\ StatusCode res = 200%Z /\
               Body res = Some body /\ unmarshal body = Some object) -> Q).
  { intros object Q HQ (url & res & body & H1 & H2 & H3 & H4 & H5). eauto. }
  destruct (resolve "/api/v1/metrics") as [url|] eqn:Hurl.
  2: { split.
       - intros groups. split; [done|]. intros (object & Hd & _).
         revert Hd. apply Hchain. intros; discriminate.
       - split; [by left | done]. }
  destruct (Get url) as [res|] eqn:Hget.
  2: { split.
       - intros groups. split; [done|]. intros (object & Hd & _).
         revert Hd. apply Hchain. intros; congruence.
       - split; [done|]. intros [Hn | (object & Hd & _)]; [done|].
         revert Hd. apply Hchain. intros; congruence. }
  destruct (Z.eqb_spec (StatusCode res) 200) as [Hs | Hs]; cbn [negb].
  2: { split.
       - intros groups. split; [done|]. intros (object & Hd & _).
         revert Hd. apply Hchain. intros; congruence.
       - split; [done|]. intros [Hn | (object & Hd & _)]; [done|].
         revert Hd. apply Hchain. intros; congruence. }
  destruct (Body res) as [body|] eqn:Hbody.
  2: { split.
       - intros groups. split; [done|]. intros (object & Hd & _).
         revert Hd. apply Hchain. intros; congruence.
       - split; [done|]. intros [Hn | (object & Hd & _)]; [done|].
         revert Hd. apply Hchain. intros; congruence. }
  destruct (unmarshal body) as [object|] eqn:Hobj.
  2: { split.
       - intros groups. split; [done|]. intros (object & Hd & _).
         revert Hd. apply Hchain. intros; congruence.
       - split; [done|]. intros [Hn | (object & Hd & _)]; [done|].
         revert Hd. apply Hchain. intros; congruence. }
  assert (Hdec : forall object',
            (exists url' res' body',
               Some url = Some url' /\ Get url' = Some res' /\
               StatusCode res' = 200%Z /\ Body res' = Some body' /\
               unmarshal body' = Some object') ->
            object' = object).
  { intros object'. apply Hchain. intros; congruence. }
  split.
  - intros groups. split.
    + intros Hp. exists object. split; [|done]. by exists url, res, body.
    + intros (object' & Hd & Hp). by rewrite (Hdec _ Hd) in Hp.
  - split.
    + intros Hp. right. exists object. split; [|done].
      by exists url, res, body.
    + intros [Hn | (object' & Hd & Hp)]; [done|].
      by rewrite (Hdec _ Hd) in Hp.
Qed.

End QueryFacts.
